(** * djmoney.money: a shallow embedding of [Money] and its helpers

    The development follows [src/djmoney/money.py].  Python's
    [decimal.Decimal] is modelled by its finite values (coefficient and
    exponent); the process-wide configuration that the module reads
    ([djmoney.settings], [django.conf.settings], the currency registry of
    [moneyed], the decimal context) is gathered in one record that every
    operation receives explicitly. *)

From Stdlib Require Import ZArith Lia Bool List Ascii String.
From stdpp Require Import base option gmap strings.

Local Open Scope string_scope.
Local Open Scope Z_scope.

(** ** Exact decimals *)

Module Dec.

(** A finite [decimal.Decimal]: the value is [coef * 10 ^ exp].  The sign
    lives in the coefficient, so the negative zero of Python is identified
    with zero; NaN and the infinities are outside the model, and so are the
    exponent limits [Emax] and [Emin] of the context. *)
Record Decimal : Type := mkDecimal { coef : Z; exp : Z }.

(** [Decimal(n)] for a Python [int]: exact, whatever the context. *)
Definition of_int (n : Z) : Decimal := mkDecimal n 0.

(** [len(d._int)], the number of digits of the coefficient. *)
Fixpoint digits_fuel (fuel : nat) (z : Z) : Z :=
  match fuel with
  | O => 0
  | S f => if z =? 0 then 0 else 1 + digits_fuel f (z / 10)
  end.

Definition ndigits (z : Z) : Z :=
  if z =? 0 then 1
  else digits_fuel (S (Z.to_nat (Z.log2 (Z.abs z)))) (Z.abs z).

(** [Decimal.__trunc__] (= [__int__]): with a negative exponent the last
    [-exp] digits of the coefficient are dropped, the sign is kept. *)
Definition trunc (d : Decimal) : Z :=
  if 0 <=? exp d then coef d * 10 ^ exp d
  else Z.sgn (coef d) * (Z.abs (coef d) / 10 ^ (- exp d)).

(** The integer [t] is the value of [d] with its fraction cut off. *)
Definition truncates_toward_zero (d : Decimal) (t : Z) : Prop :=
  (0 <= exp d -> t = coef d * 10 ^ exp d) /\
  (exp d < 0 ->
     Z.abs t * 10 ^ (- exp d) <= Z.abs (coef d) < (Z.abs t + 1) * 10 ^ (- exp d)
     /\ 0 <= t * coef d).

(** Numerical comparison, [Decimal.__eq__] on finite values. *)
Definition eqb (a b : Decimal) : bool :=
  let e := Z.min (exp a) (exp b) in
  coef a * 10 ^ (exp a - e) =? coef b * 10 ^ (exp b - e).

(** ROUND_HALF_EVEN on a non-negative coefficient that loses its last [k]
    digits. *)
Definition half_even (c k : Z) : Z :=
  let q := c / 10 ^ k in
  let r := c mod 10 ^ k in
  if (10 ^ k <? 2 * r) || ((2 * r =? 10 ^ k) && Z.odd q) then q + 1 else q.

(** [Decimal._rescale(e, ROUND_HALF_EVEN)]. *)
Definition rescale (d : Decimal) (e : Z) : Decimal :=
  if coef d =? 0 then mkDecimal 0 e
  else if e <=? exp d then mkDecimal (coef d * 10 ^ (exp d - e)) e
  else mkDecimal (Z.sgn (coef d) * half_even (Z.abs (coef d)) (e - exp d)) e.

(** [q] is [d] rounded to the exponent [e]: exact when that only adds
    zeros, otherwise within half a unit of [d], and even in a tie. *)
Definition rounded_half_even (d : Decimal) (e : Z) (q : Decimal) : Prop :=
  exp q = e /\
  (e <= exp d -> coef q = coef d * 10 ^ (exp d - e)) /\
  (exp d < e ->
     2 * Z.abs (coef q * 10 ^ (e - exp d) - coef d) <= 10 ^ (e - exp d) /\
     (2 * Z.abs (coef q * 10 ^ (e - exp d) - coef d) = 10 ^ (e - exp d) ->
      Z.even (coef q) = true)).

(** [Decimal._fix(context)]: round to the [prec] digits of the context. *)
Definition fix_prec (prec : Z) (d : Decimal) : Decimal :=
  if coef d =? 0 then d
  else
    let n := ndigits (coef d) in
    if n <=? prec then d
    else
      let r := rescale d (exp d + (n - prec)) in
      if prec <? ndigits (coef r) then mkDecimal (coef r / 10) (exp r + 1)
      else r.

(** [Decimal.__add__]: the exact sum, rounded to the context. *)
Definition add (prec : Z) (a b : Decimal) : Decimal :=
  let e := Z.min (exp a) (exp b) in
  if (coef a =? 0) && (coef b =? 0) then fix_prec prec (mkDecimal 0 e)
  else if coef a =? 0 then
    fix_prec prec (rescale b (Z.max e (exp b - prec - 1)))
  else if coef b =? 0 then
    fix_prec prec (rescale a (Z.max e (exp a - prec - 1)))
  else
    fix_prec prec
      (mkDecimal (coef a * 10 ^ (exp a - e) + coef b * 10 ^ (exp b - e)) e).

(** [Decimal.__neg__]. *)
Definition neg (prec : Z) (d : Decimal) : Decimal :=
  fix_prec prec (mkDecimal (- coef d) (exp d)).

(** [Decimal.quantize(Decimal(1).scaleb(e))] with the rounding of the
    default context (ROUND_HALF_EVEN); [None] is [InvalidOperation], raised
    when the result needs more than [prec] digits. *)
Definition quantize (prec : Z) (d : Decimal) (e : Z) : option Decimal :=
  if coef d =? 0 then Some (mkDecimal 0 e)
  else if prec <? ndigits (coef d) + exp d - e then None
  else
    let q := rescale d e in
    if prec <? ndigits (coef q) then None else Some q.

(** [Decimal.__round__] without a digit count: the nearest [int], ties to
    even.  (With a digit count [n] it is [quantize] to the exponent [-n].) *)
Definition round_int (d : Decimal) : Z := trunc (rescale d 0).

End Dec.

Export Dec(Decimal, mkDecimal, coef, exp).

(** ** Strings *)

(** [str.upper] on ASCII text (the currency codes and locale tags the module
    handles); characters outside [a-z] are left as they are. *)
Definition upper_ascii (a : ascii) : ascii :=
  let n := N_of_ascii a in
  if ((97 <=? n) && (n <=? 122))%N then ascii_of_N (n - 32) else a.

Fixpoint upper (s : string) : string :=
  match s with
  | EmptyString => EmptyString
  | String a r => String (upper_ascii a) (upper r)
  end.

Definition is_digit (a : ascii) : bool :=
  let n := N_of_ascii a in ((48 <=? n) && (n <=? 57))%N.

Definition digit_val (a : ascii) : Z := Z.of_N (N_of_ascii a) - 48.

(** The longest prefix of decimal digits, and what follows it. *)
Fixpoint span_digits (s : string) : list Z * string :=
  match s with
  | String a r =>
      if is_digit a then
        let '(ds, rest) := span_digits r in (digit_val a :: ds, rest)
      else (nil, s)
  | EmptyString => (nil, s)
  end.

Definition Z_of_digits (ds : list Z) : Z :=
  fold_left (fun acc d => 10 * acc + d) ds 0.

Definition parse_sign (s : string) : Z * string :=
  match s with
  | String "-" r => (-1, r)
  | String "+" r => (1, r)
  | _ => (1, s)
  end.

Definition parse_exponent (s : string) : option Z :=
  match s with
  | EmptyString => Some 0
  | String a r =>
      if (Ascii.eqb a "e" || Ascii.eqb a "E")%bool then
        let '(sg, r1) := parse_sign r in
        match span_digits r1 with
        | (d :: ds, EmptyString) => Some (sg * Z_of_digits (d :: ds))
        | _ => None
        end
      else None
  end.

(** [Decimal(s)] for a numeric string: an optional sign, digits with an
    optional fraction, an optional exponent.  [None] is the
    [InvalidOperation] of a malformed string.  Surrounding white space,
    underscores and the spellings of NaN and infinity, which Python
    accepts, are not part of the model (it has finite values only). *)
Definition Decimal_of_string (s : string) : option Decimal :=
  let '(sg, s1) := parse_sign s in
  let '(ip, s2) := span_digits s1 in
  let '(fp, s3) :=
    match s2 with
    | String "." r => span_digits r
    | _ => (nil, s2)
    end in
  match (ip ++ fp)%list with
  | nil => None
  | ds =>
      match parse_exponent s3 with
      | Some e => Some (mkDecimal (sg * Z_of_digits ds) (e - Z.of_nat (length fp)))
      | None => None
      end
  end.

(** ** Data model *)

(** [moneyed.Currency]; two currencies are equal when their codes are. *)
Record Currency : Type := mkCurrency {
  code : string;
  numeric : string;
  name : string
}.

Definition currency_eqb (a b : Currency) : bool := String.eqb (code a) (code b).

(** What the module reads from its environment: [djmoney.settings], the
    attributes of [django.conf.settings], the [CURRENCIES] registry of
    [moneyed], the precision of the decimal context, the active language and
    the table of formatting definitions.  A per-currency table that is not a
    [dict] is [None]; an [AUTO_CONVERT_MONEY] attribute that is absent is
    [None]. *)
Record Settings : Type := mkSettings {
  DECIMAL_PLACES : Z;
  DECIMAL_PLACES_PER_CURRENCY : option (gmap string Z);
  DISPLAY_DECIMAL_PLACES_PER_CURRENCY : option (gmap string Z);
  AUTO_CONVERT_MONEY : option bool;
  CURRENCIES : gmap string Currency;
  prec : Z;
  get_language : option string;
  LANGUAGE_CODE : string;
  formatting_definitions : gset string
}.

Definition DEFAULT_CURRENCY_CODE : string := "XYZ".

Inductive error : Type :=
  | InvalidOperation                      (* decimal.InvalidOperation *)
  | UnknownCurrency (c : string)          (* moneyed.CurrencyDoesNotExist *)
  | CurrencyMismatch                      (* TypeError: different currencies *)
  | NotMoney                              (* TypeError: operand is not Money *)
  | ConversionFailure (msg : string)      (* whatever the hook raises *)
  | AttributeError.                       (* an attribute read that fails *)

Inductive Res (A : Type) : Type :=
  | Ok (a : A)
  | Err (e : error).
Arguments Ok {A} a.
Arguments Err {A} e.

Definition res_bind {A B} (r : Res A) (k : A -> Res B) : Res B :=
  match r with Ok a => k a | Err e => Err e end.

(** [Money]: the two attributes set by [__init__], and the two precision
    attributes, which are the class attributes unless [__init__] overrides
    them on the instance. *)
Record Money : Type := mkMoney {
  amount : Decimal;
  currency : Currency;
  amount_decimal_places : Z;
  display_decimal_places : Z
}.

(** The [amount] argument of the constructor: a [Decimal], an [int] or a
    [str] (a [float] goes through its [repr], which is not modelled). *)
Inductive amount_arg : Type :=
  | ADecimal (d : Decimal)
  | AInt (n : Z)
  | AStr (s : string).

(** The [currency] argument: a [Currency] or a code. *)
Inductive currency_arg : Type :=
  | CCurrency (c : Currency)
  | CCode (s : string).

(** [moneyed.get_currency]. *)
Definition get_currency (st : Settings) (c : string) : Res Currency :=
  match CURRENCIES st !! c with
  | Some cur => Ok cur
  | None => Err (UnknownCurrency c)
  end.

(** Lines 33-34: [Decimal(str(amount))] unless [amount] is a [Decimal]. *)
Definition to_decimal (a : amount_arg) : Res Decimal :=
  match a with
  | ADecimal d => Ok d
  | AInt n => Ok (Dec.of_int n)
  | AStr s =>
      match Decimal_of_string s with
      | Some d => Ok d
      | None => Err InvalidOperation
      end
  end.

(** Lines 36-37. *)
Definition to_currency (st : Settings) (c : currency_arg) : Res Currency :=
  match c with
  | CCurrency cur => Ok cur
  | CCode s => get_currency st (upper s)
  end.

(** Lines 41-48, the [try] block.  Both subscriptions are in the same
    block: a [KeyError] of the first leaves it before the second is reached.
    The result is the pair of the instance's [amount_decimal_places] and
    [display_decimal_places]. *)
Definition decimal_places_override (st : Settings) (c : string) : Z * Z :=
  let adp := DECIMAL_PLACES st in
  let ddp := DECIMAL_PLACES st in
  match
    match DECIMAL_PLACES_PER_CURRENCY st with
    | Some tbl =>
        match tbl !! c with
        | Some v => Some v
        | None => None                  (* KeyError *)
        end
    | None => Some adp
    end
  with
  | None => (adp, ddp)                  (* except (IndexError, KeyError) *)
  | Some adp' =>
      match DISPLAY_DECIMAL_PLACES_PER_CURRENCY st with
      | Some tbl =>
          match tbl !! c with
          | Some v => (adp', v)
          | None => (adp', ddp)         (* KeyError, after the first write *)
          end
      | None => (adp', ddp)
      end
  end.

(** [Money.__init__] with both arguments given. *)
Definition Money_init (st : Settings) (a : amount_arg) (c : currency_arg)
  : Res Money :=
  res_bind (to_decimal a) (fun amt =>
  res_bind (to_currency st c) (fun cur =>
  let '(adp, ddp) := decimal_places_override st (code cur) in
  let amt' := if adp =? 0 then Dec.of_int (Dec.trunc amt) else amt in
  Ok (mkMoney amt' cur adp ddp))).

(** The defaults of the signature: [Decimal('0.0')] and the sentinel code. *)
Definition default_amount : amount_arg := ADecimal (mkDecimal 0 (-1)).
Definition default_currency : currency_arg := CCode DEFAULT_CURRENCY_CODE.

Definition Money_new (st : Settings) (a : option amount_arg)
    (c : option currency_arg) : Res Money :=
  Money_init st (default default_amount a) (default default_currency c).

(** [Money.__round__]: [round(self.amount, n)] is a [Decimal] when [n] is
    given and an [int] otherwise; either goes back through the constructor,
    with the [Currency] of the receiver. *)
Definition Money_round (st : Settings) (self : Money) (n : option Z)
  : Res Money :=
  match n with
  | Some k =>
      match Dec.quantize (prec st) (amount self) (- k) with
      | Some q => Money_init st (ADecimal q) (CCurrency (currency self))
      | None => Err InvalidOperation
      end
  | None =>
      Money_init st (AInt (Dec.round_int (amount self)))
        (CCurrency (currency self))
  end.

(** ** Arithmetic *)

(** The deferred-expression collaborator ([django.db.models.F]): a
    placeholder type [F] with the four reflected operators, each building an
    expression of type [E] from the placeholder and the [Money] on its
    left. *)
Class Deferred (F E : Type) : Type := {
  radd : F -> Money -> E;
  rsub : F -> Money -> E;
  rmul : F -> Money -> E;
  rtruediv : F -> Money -> E
}.

Section Arithmetic.

Context {F E : Type} `{Deferred F E}.

(** A right operand: a [Money], a plain number, or a placeholder. *)
Inductive value : Type :=
  | VMoney (m : Money)
  | VNum (d : Decimal)
  | VF (f : F).

(** What an operator returns: a [Money] or a deferred expression. *)
Inductive result : Type :=
  | RMoney (m : Money)
  | RExpr (e : E).

(** The conversion hook, [djmoney.contrib.exchange.models.convert_money], is
    outside this module; by its contract it returns a [Money] or raises. *)
Variable convert_money : value -> Currency -> Res Money.

(** The multiplication and division of the base class [moneyed.Money], to
    which [__mul__] and [__truediv__] hand over unchanged. *)
Variable super_mul : Money -> value -> Res result.
Variable super_truediv : Money -> value -> Res result.

(** Computations that may call the hook: the result, and the calls made, in
    order. *)
Definition hook_call : Type := value * Currency.
Definition M (A : Type) : Type := Res A * list hook_call.

Definition ret {A} (a : A) : M A := (Ok a, nil).
Definition raise {A} (e : error) : M A := (Err e, nil).
Definition lift {A} (r : Res A) : M A := (r, nil).
Definition bind {A B} (m : M A) (k : A -> M B) : M B :=
  match m with
  | (Ok a, t) => let '(r, t') := k a in (r, (t ++ t')%list)
  | (Err e, t) => (Err e, t)
  end.
Definition call_hook (v : value) (c : Currency) : M Money :=
  (convert_money v c, (v, c) :: nil).

Local Notation "'let*' x ':=' m 'in' k" := (bind m (fun x => k))
  (at level 10, x name, m at level 100, k at level 200).

(** [maybe_convert]: the flag alone decides whether the hook is called. *)
Definition maybe_convert (st : Settings) (v : value) (c : Currency) : M value :=
  match AUTO_CONVERT_MONEY st with
  | Some true => let* m := call_hook v c in ret (VMoney m)
  | _ => ret v
  end.

(** Modelled from the spec: the addition of the base class
    [moneyed.Money], which is not among this repository's sources: it adds
    the amounts of two [Money] of one currency, building the result with
    the constructor of the receiver's class, and fails if the currencies
    differ.  For an operand that is not a [Money] the definition follows
    py-moneyed: the receiver itself for a number equal to [0] (so that
    [sum] works), a [TypeError] otherwise. *)
Definition super_add (st : Settings) (self : Money) (other : value)
  : Res result :=
  match other with
  | VNum d => if Dec.eqb d (Dec.of_int 0) then Ok (RMoney self) else Err NotMoney
  | VF _ => Err NotMoney
  | VMoney o =>
      if currency_eqb (currency self) (currency o) then
        res_bind
          (Money_init st (ADecimal (Dec.add (prec st) (amount self) (amount o)))
             (CCurrency (currency self)))
          (fun m => Ok (RMoney m))
      else Err CurrencyMismatch
  end.

(** [Money.__add__]. *)
Definition Money_add (st : Settings) (self : Money) (other : value) : M result :=
  match other with
  | VF f => ret (RExpr (radd f self))
  | _ =>
      let* other' := maybe_convert st other (currency self) in
      lift (super_add st self other')
  end.

(** Modelled from the spec: the negation of the base class, [-other], used
    by its subtraction; a [Money] is rebuilt by the constructor. *)
Definition value_neg (st : Settings) (other : value) : Res value :=
  match other with
  | VMoney o =>
      res_bind
        (Money_init st (ADecimal (Dec.neg (prec st) (amount o)))
           (CCurrency (currency o)))
        (fun m => Ok (VMoney m))
  | VNum d => Ok (VNum (Dec.neg (prec st) d))
  | VF _ => Err NotMoney
  end.

(** Modelled from the spec: the subtraction of the base class, which
    py-moneyed writes [self.__add__(-other)]; the call is dispatched on the
    receiver, so it is [Money.__add__] above that runs. *)
Definition super_sub (st : Settings) (self : Money) (other : value) : M result :=
  let* other' := lift (value_neg st other) in
  Money_add st self other'.

(** [Money.__sub__]. *)
Definition Money_sub (st : Settings) (self : Money) (other : value) : M result :=
  match other with
  | VF f => ret (RExpr (rsub f self))
  | _ =>
      let* other' := maybe_convert st other (currency self) in
      super_sub st self other'
  end.

(** [Money.__mul__]. *)
Definition Money_mul (self : Money) (other : value) : M result :=
  match other with
  | VF f => ret (RExpr (rmul f self))
  | _ => lift (super_mul self other)
  end.

(** [Money.__truediv__]. *)
Definition Money_truediv (self : Money) (other : value) : M result :=
  match other with
  | VF f => ret (RExpr (rtruediv f self))
  | _ => lift (super_truediv self other)
  end.

End Arithmetic.

Arguments value : clear implicits.
Arguments result : clear implicits.

(** ** Locale resolution *)

Fixpoint lower (s : string) : string :=
  match s with
  | EmptyString => EmptyString
  | String a r =>
      let n := N_of_ascii a in
      String (if ((65 <=? n) && (n <=? 90))%N then ascii_of_N (n + 32) else a)
        (lower r)
  end.

(** The text before the first ["-"] and, if there is one, the text after
    it. *)
Fixpoint split_dash (s : string) : string * option string :=
  match s with
  | EmptyString => (EmptyString, None)
  | String a r =>
      if Ascii.eqb a "-" then (EmptyString, Some r)
      else let '(h, t) := split_dash r in (String a h, t)
  end.

(** [django.utils.translation.to_locale], which turns a language name
    ([en-us]) into a locale name ([en_US]).  It belongs to Django, and
    [get_current_locale] below takes it as an argument; this definition
    serves the examples. *)
Definition to_locale_django (language : string) : string :=
  match split_dash language with
  | (h, None) => lower h
  | (h, Some (String a r as t)) =>
      if (2 <? String.length t)%nat
      then lower h ++ "_" ++ String (upper_ascii a) (lower r)
      else lower h ++ "_" ++ upper t
  | (h, Some EmptyString) => lower h ++ "_"
  end.

(** [translation.get_language() or settings.LANGUAGE_CODE]: the active
    language, or the default of the settings when there is none (or an
    empty one). *)
Definition requested_language (st : Settings) : string :=
  match get_language st with
  | Some EmptyString | None => LANGUAGE_CODE st
  | Some l => l
  end.

(** [get_current_locale]: the requested language, canonicalised by
    [to_locale], is looked up in the formatting definitions, first
    upper-cased and then doubled. *)
Definition get_current_locale (to_locale : string -> string) (st : Settings)
  : string :=
  let language := requested_language st in
  let locale := to_locale language in
  if decide (upper locale ∈ formatting_definitions st) then locale
  else
    let locale' := upper (locale ++ "_" ++ locale) in
    if decide (locale' ∈ formatting_definitions st) then locale'
    else "".

(** ** Objects and references

    The operators above compute with the values of the attributes.  To speak
    about what an operation does to the objects that exist when it is
    called, the same methods are given once more over a store of [Money]
    objects: every constructor call allocates a new object, an operand is a
    reference, and a method may return the reference it was given. *)

Module Obj.

Abbreviation loc := positive.
Abbreviation heap := (gmap positive Money).

Section Objects.

Context {F E : Type} `{Deferred F E}.
Variable convert_money : value F -> Currency -> Res Money.
Variable super_mul : Money -> value F -> Res (result E).
Variable super_truediv : Money -> value F -> Res (result E).

Inductive operand : Type :=
  | ORef (l : loc)
  | ONum (d : Decimal)
  | OF (f : F).

Inductive outcome : Type :=
  | QRef (l : loc)
  | QExpr (e : E).

Definition HM (A : Type) : Type := heap -> Res A * heap.

Definition hret {A} (a : A) : HM A := fun h => (Ok a, h).
Definition hraise {A} (e : error) : HM A := fun h => (Err e, h).
Definition hlift {A} (r : Res A) : HM A := fun h => (r, h).
Definition hbind {A B} (m : HM A) (k : A -> HM B) : HM B :=
  fun h => match m h with
           | (Ok a, h') => k a h'
           | (Err e, h') => (Err e, h')
           end.

Local Notation "'let*' x ':=' m 'in' k" := (hbind m (fun x => k))
  (at level 10, x name, m at level 100, k at level 200).

(** A computation that only adds objects to the store. *)
Definition preserving {A} (c : HM A) : Prop :=
  forall h r h', c h = (r, h') -> h ⊆ h'.

(** Reading the attributes of the object behind a reference. *)
Definition deref (l : loc) : HM Money :=
  fun h => match h !! l with
           | Some m => (Ok m, h)
           | None => (Err AttributeError, h)
           end.

(** A new object holding [m], at an address not in use. *)
Definition alloc (m : Money) : HM loc :=
  fun h => let l := fresh (dom h) in (Ok l, <[l := m]> h).

(** [Money(amount, currency)]: [__init__] writes to the new object only. *)
Definition new_Money (st : Settings) (a : amount_arg) (c : currency_arg)
  : HM loc :=
  let* m := hlift (Money_init st a c) in alloc m.

(** The value an operand stands for. *)
Definition load (o : operand) : HM (value F) :=
  match o with
  | ORef l => let* m := deref l in hret (VMoney m)
  | ONum d => hret (VNum d)
  | OF f => hret (VF f)
  end.

Definition maybe_convert (st : Settings) (o : operand) (c : Currency)
  : HM operand :=
  match AUTO_CONVERT_MONEY st with
  | Some true =>
      let* v := load o in
      let* m := hlift (convert_money v c) in
      let* l := alloc m in
      hret (ORef l)
  | _ => hret o
  end.

Definition super_add (st : Settings) (self : loc) (other : operand)
  : HM outcome :=
  match other with
  | ONum d =>
      if Dec.eqb d (Dec.of_int 0) then hret (QRef self) else hraise NotMoney
  | OF _ => hraise NotMoney
  | ORef b =>
      let* s := deref self in
      let* o := deref b in
      if currency_eqb (currency s) (currency o) then
        let* l := new_Money st
                    (ADecimal (Dec.add (prec st) (amount s) (amount o)))
                    (CCurrency (currency s)) in
        hret (QRef l)
      else hraise CurrencyMismatch
  end.

Definition Money_add (st : Settings) (self : loc) (other : operand)
  : HM outcome :=
  match other with
  | OF f => let* s := deref self in hret (QExpr (radd f s))
  | _ =>
      let* s := deref self in
      let* other' := maybe_convert st other (currency s) in
      super_add st self other'
  end.

Definition operand_neg (st : Settings) (other : operand) : HM operand :=
  match other with
  | ORef b =>
      let* o := deref b in
      let* l := new_Money st (ADecimal (Dec.neg (prec st) (amount o)))
                  (CCurrency (currency o)) in
      hret (ORef l)
  | ONum d => hret (ONum (Dec.neg (prec st) d))
  | OF _ => hraise NotMoney
  end.

Definition super_sub (st : Settings) (self : loc) (other : operand)
  : HM outcome :=
  let* other' := operand_neg st other in
  Money_add st self other'.

Definition Money_sub (st : Settings) (self : loc) (other : operand)
  : HM outcome :=
  match other with
  | OF f => let* s := deref self in hret (QExpr (rsub f s))
  | _ =>
      let* s := deref self in
      let* other' := maybe_convert st other (currency s) in
      super_sub st self other'
  end.

(** The base class's product and quotient are given on values; a [Money]
    they return is a new object. *)
Definition store_result (r : result E) : HM outcome :=
  match r with
  | RMoney m => let* l := alloc m in hret (QRef l)
  | RExpr e => hret (QExpr e)
  end.

Definition Money_mul (self : loc) (other : operand) : HM outcome :=
  match other with
  | OF f => let* s := deref self in hret (QExpr (rmul f s))
  | _ =>
      let* s := deref self in
      let* v := load other in
      let* r := hlift (super_mul s v) in
      store_result r
  end.

Definition Money_truediv (self : loc) (other : operand) : HM outcome :=
  match other with
  | OF f => let* s := deref self in hret (QExpr (rtruediv f s))
  | _ =>
      let* s := deref self in
      let* v := load other in
      let* r := hlift (super_truediv s v) in
      store_result r
  end.

Definition Money_round (st : Settings) (self : loc) (n : option Z) : HM loc :=
  let* s := deref self in
  match n with
  | Some k =>
      match Dec.quantize (prec st) (amount s) (- k) with
      | Some q => new_Money st (ADecimal q) (CCurrency (currency s))
      | None => hraise InvalidOperation
      end
  | None =>
      new_Money st (AInt (Dec.round_int (amount s))) (CCurrency (currency s))
  end.

(** An outcome in a store stands for a result on values: a reference for
    the [Money] it points to, an expression for itself. *)
Definition represents (h : heap) (q : outcome) (r : result E) : Prop :=
  match q, r with
  | QRef l, RMoney m => h !! l = Some m
  | QExpr e, RExpr e' => e = e'
  | _, _ => False
  end.

(** A run on objects agrees with a result on values: the same error, or an
    outcome that stands for the same result. *)
Definition agrees (x : Res outcome * heap) (y : Res (result E)) : Prop :=
  match x, y with
  | (Ok q, h'), Ok r => represents h' q r
  | (Err e, _), Err e' => e = e'
  | _, _ => False
  end.

End Objects.

End Obj.

(** ** Printing *)

Definition digit_char (d : Z) : ascii := ascii_of_N (Z.to_N d + 48).

Fixpoint to_digits (fuel : nat) (n : Z) (acc : list Z) : list Z :=
  match fuel with
  | O => acc
  | S f =>
      if n <? 10 then n :: acc else to_digits f (n / 10) (n mod 10 :: acc)
  end.

(** The decimal digits of a natural number, the most significant first:
    [d._int] for the coefficient of a [Decimal]. *)
Definition digits_of (n : Z) : list Z :=
  to_digits (S (Z.to_nat (Z.log2 n))) n nil.

Fixpoint string_of_digits (ds : list Z) : string :=
  match ds with
  | nil => EmptyString
  | d :: r => String (digit_char d) (string_of_digits r)
  end.

(** ["%+d" % z]. *)
Definition format_signed (z : Z) : string :=
  (if z <? 0 then "-" else "+") ++ string_of_digits (digits_of (Z.abs z)).

(** [Decimal.__str__] (scientific notation, capital [E]): no exponent is
    printed when the exponent is at most 0 and the number is not smaller
    than [1E-6]; otherwise one digit stands before the point. *)
Definition Decimal_str (d : Decimal) : string :=
  let sign := if coef d <? 0 then "-" else "" in
  let ds := digits_of (Z.abs (coef d)) in
  let len := Z.of_nat (length ds) in
  let leftdigits := exp d + len in
  let dotplace :=
    if (exp d <=? 0) && (-6 <? leftdigits) then leftdigits else 1 in
  let intpart :=
    if dotplace <=? 0 then "0"
    else if len <=? dotplace then
      string_of_digits ds
      ++ string_of_digits (repeat 0 (Z.to_nat (dotplace - len)))
    else string_of_digits (firstn (Z.to_nat dotplace) ds) in
  let fracpart :=
    if dotplace <=? 0 then
      "." ++ string_of_digits (repeat 0 (Z.to_nat (- dotplace)))
          ++ string_of_digits ds
    else if len <=? dotplace then ""
    else "." ++ string_of_digits (skipn (Z.to_nat dotplace) ds) in
  let e :=
    if leftdigits =? dotplace then ""
    else "E" ++ format_signed (leftdigits - dotplace) in
  sign ++ intpart ++ fracpart ++ e.

Definition is_dec_digit (d : Z) : Prop := 0 <= d < 10.

(** A text that does not continue a run of digits. *)
Definition not_digit_start (s : string) : Prop :=
  match s with
  | EmptyString => True
  | String a _ => is_digit a = false
  end.

(** A text that begins with a digit. *)
Definition starts_with_digit (s : string) : Prop :=
  match s with
  | EmptyString => False
  | String a _ => is_digit a = true
  end.

(** The amount that [Money.__repr__] shows: its integer part when the
    instance has zero display places. *)
Definition repr_amount (self : Money) : Decimal :=
  if display_decimal_places self =? 0
  then Dec.of_int (Dec.trunc (amount self))
  else amount self.

(** [Money.__repr__]; the text of a [Currency] is its code. *)
Definition Money_repr (self : Money) : string :=
  "Money('" ++ Decimal_str (repr_amount self) ++ "', '"
  ++ code (currency self) ++ "')".

(** ** Rendering *)

(** The keyword arguments that [__unicode__] hands to
    [moneyed.localization.format_money]; [kw_locale] is [None] when the
    key is not set, and [format_money] then uses its own default. *)
Record format_kwargs : Type := mkKwargs {
  kw_money : Money;
  kw_decimal_places : Z;
  kw_locale : option string
}.

(** [Money.is_localized]: the attribute [use_l10n] of the instance ([None]
    on the class, and so on every instance that did not set it), else
    [settings.USE_L10N].  The attribute is not written by any method of
    the class; it is passed here next to the instance. *)
Definition is_localized (USE_L10N : bool) (use_l10n : option bool) : bool :=
  match use_l10n with
  | None => USE_L10N
  | Some b => b
  end.

(** Lines 98-102 of [Money.__unicode__]: the locale is added only for a
    localized instance, and only if the resolved locale is not empty. *)
Definition unicode_kwargs (to_locale : string -> string) (st : Settings)
    (USE_L10N : bool) (use_l10n : option bool) (self : Money) : format_kwargs :=
  let kwargs := mkKwargs self (display_decimal_places self) None in
  if is_localized USE_L10N use_l10n then
    let locale := get_current_locale to_locale st in
    match locale with
    | EmptyString => kwargs
    | _ => mkKwargs self (display_decimal_places self) (Some locale)
    end
  else kwargs.

Section Rendering.

(** [format_money] belongs to [moneyed]; it returns a text. *)
Variable format_money : format_kwargs -> string.
Variable to_locale : string -> string.

(** [Money.__unicode__]. *)
Definition Money_unicode (st : Settings) (USE_L10N : bool)
    (use_l10n : option bool) (self : Money) : string :=
  format_money (unicode_kwargs to_locale st USE_L10N use_l10n self).

(** [Money.__str__]: the text of [__unicode__] is a [str] already. *)
Definition Money_str (st : Settings) (USE_L10N : bool)
    (use_l10n : option bool) (self : Money) : string :=
  Money_unicode st USE_L10N use_l10n self.

End Rendering.

(** *** Markup

    Texts are kept as their UTF-8 bytes.  The three functions below are
    Django's ([django.utils.html], [django.utils.safestring]), applied to
    the plain text that [format_money] returns. *)

(** [escape] (as [conditional_escape] acts on a plain text): the five
    characters with a meaning in markup become entities. *)
Definition escape_char (a : ascii) : string :=
  if Ascii.eqb a "&" then "&amp;"
  else if Ascii.eqb a "<" then "&lt;"
  else if Ascii.eqb a ">" then "&gt;"
  else if Ascii.eqb a "034" then "&quot;"
  else if Ascii.eqb a "'" then "&#x27;"
  else String a EmptyString.

Fixpoint escape (s : string) : string :=
  match s with
  | EmptyString => EmptyString
  | String a r => escape_char a ++ escape r
  end.

(** [avoid_wrapping]: every space becomes a no-break space (U+00A0, the
    bytes 194 and 160). *)
Fixpoint avoid_wrapping (s : string) : string :=
  match s with
  | EmptyString => EmptyString
  | String a r =>
      if Ascii.eqb a " " then String "194" (String "160" (avoid_wrapping r))
      else String a (avoid_wrapping r)
  end.

(** A text marked as safe for markup. *)
Inductive SafeText : Type :=
  | mark_safe (s : string).

(** [Money.__html__]. *)
Definition Money_html (format_money : format_kwargs -> string)
    (to_locale : string -> string) (st : Settings) (USE_L10N : bool)
    (use_l10n : option bool) (self : Money) : SafeText :=
  mark_safe (avoid_wrapping (escape
    (Money_unicode format_money to_locale st USE_L10N use_l10n self))).

(** A character that neither opens or closes a tag or a quoted attribute
    nor allows a line break. *)
Definition markup_inert (a : ascii) : Prop :=
  a <> "<"%char /\ a <> ">"%char /\ a <> "034"%char /\ a <> "'"%char /\
  a <> " "%char.

(** ** The constructor's invariant *)

(** What holds of every [Money] the constructor built under the settings
    [st]: its precision attributes are the ones resolved for its currency,
    and with zero decimal places its amount is an integer written without
    exponent. *)
Definition well_formed (st : Settings) (m : Money) : Prop :=
  (amount_decimal_places m, display_decimal_places m)
    = decimal_places_override st (code (currency m)) /\
  (amount_decimal_places m = 0 -> exp (amount m) = 0).

(** ** Sample configurations, for the examples *)

Definition USD : Currency := mkCurrency "USD" "840" "US Dollar".
Definition EUR : Currency := mkCurrency "EUR" "978" "Euro".
Definition JPY : Currency := mkCurrency "JPY" "392" "Japanese Yen".
Definition XYZ : Currency := mkCurrency "XYZ" "999" "Default currency.".

Definition sample_currencies : gmap string Currency :=
  <["USD" := USD]> (<["EUR" := EUR]> (<["JPY" := JPY]> (<["XYZ" := XYZ]> ∅))).

(** The defaults: two decimal places, no per-currency table, no
    conversion, a context of 28 digits. *)
Definition st_default : Settings :=
  mkSettings 2 None None None sample_currencies 28 None "en-us"
    ({["EN_US"]} ∪ {["FR_FR"]}).

(** Yen are kept and shown without decimals. *)
Definition st_yen : Settings :=
  mkSettings 2 (Some {["JPY" := 0]}) (Some {["JPY" := 0]}) None
    sample_currencies 28 None "en-us" ({["EN_US"]} ∪ {["FR_FR"]}).

(** A display table with an entry for yen, next to an amount table that is
    a [dict] without one. *)
Definition st_display_only : Settings :=
  mkSettings 2 (Some ∅) (Some {["JPY" := 0]}) None
    sample_currencies 28 None "en-us" ({["EN_US"]} ∪ {["FR_FR"]}).

(** The same display table, next to an amount table that is not a [dict]. *)
Definition st_display_nodict : Settings :=
  mkSettings 2 None (Some {["JPY" := 0]}) None
    sample_currencies 28 None "en-us" ({["EN_US"]} ∪ {["FR_FR"]}).

Definition st_convert : Settings :=
  mkSettings 2 None None (Some true) sample_currencies 28 None "en-us"
    ({["EN_US"]} ∪ {["FR_FR"]}).

(** A placeholder is a column name; an expression records the operator and
    its two sides. *)
Inductive sample_expr : Type :=
  | Combined (lhs : Money) (op : string) (column : string).

#[global] Instance sample_deferred : Deferred string sample_expr := {|
  radd f m := Combined m "+" f;
  rsub f m := Combined m "-" f;
  rmul f m := Combined m "*" f;
  rtruediv f m := Combined m "/" f
|}.

(** A stub hook: a [Money] already in the target currency is returned as it
    is, any other [Money] becomes [Money(9, target)]; anything else is
    refused. *)
Definition sample_hook (v : value string) (c : Currency) : Res Money :=
  match v with
  | VMoney m =>
      if currency_eqb (currency m) c then Ok m
      else Ok (mkMoney (mkDecimal 9 0) c 2 2)
  | _ => Err (ConversionFailure "not a Money")
  end.

(** A base-class product and quotient that accept no operand at all. *)
Definition no_super (m : Money) (v : value string) : Res (result sample_expr) :=
  Err NotMoney.

Definition usd10 : Money := mkMoney (mkDecimal 10 0) USD 2 2.
Definition eur10 : Money := mkMoney (mkDecimal 10 0) EUR 2 2.

(** The default settings with an active language. *)
Definition st_language (l : string) : Settings :=
  mkSettings 2 None None None sample_currencies 28 (Some l) "en-us"
    ({["EN_US"]} ∪ {["FR_FR"]}).

(** * Properties *)

(** ** The constructor *)

Example Decimal_of_string_19_99 :
  Decimal_of_string "19.99" = Some (mkDecimal 1999 (-2)).
Proof. reflexivity. Qed.

Example Decimal_of_string_exp :
  Decimal_of_string "-1.5E+3" = Some (mkDecimal (-15) 2).
Proof. reflexivity. Qed.

Example Decimal_of_string_bad : Decimal_of_string "1.2.3" = None.
Proof. reflexivity. Qed.

Example upper_usd : upper "usd" = "USD".
Proof. reflexivity. Qed.

(** With a [Currency] and a [Decimal] the constructor cannot fail. *)
Lemma Money_init_values st d cur :
  Money_init st (ADecimal d) (CCurrency cur) =
  Ok (mkMoney
        (if fst (decimal_places_override st (code cur)) =? 0
         then Dec.of_int (Dec.trunc d) else d)
        cur
        (fst (decimal_places_override st (code cur)))
        (snd (decimal_places_override st (code cur)))).
Proof.
  unfold Money_init; simpl.
  destruct (decimal_places_override st (code cur)) as [adp ddp]; reflexivity.
Qed.

(** What a successful construction stores. *)
Lemma Money_init_inv st a c m :
  Money_init st a c = Ok m ->
  exists d cur,
    to_decimal a = Ok d /\ to_currency st c = Ok cur /\
    currency m = cur /\
    amount_decimal_places m = fst (decimal_places_override st (code cur)) /\
    display_decimal_places m = snd (decimal_places_override st (code cur)) /\
    amount m = (if amount_decimal_places m =? 0
                then Dec.of_int (Dec.trunc d) else d).
Proof.
  unfold Money_init, res_bind.
  destruct (to_decimal a) as [d|]; [|discriminate].
  destruct (to_currency st c) as [cur|]; [|discriminate].
  destruct (decimal_places_override st (code cur)) as [adp ddp] eqn:Hov.
  intros [= <-]; exists d, cur; rewrite Hov; simpl; repeat split; reflexivity.
Qed.

Lemma trunc_toward_zero d : Dec.truncates_toward_zero d (Dec.trunc d).
Proof.
  unfold Dec.truncates_toward_zero, Dec.trunc; split; intros He.
  - destruct (Z.leb_spec 0 (exp d)); [reflexivity | lia].
  - destruct (Z.leb_spec 0 (exp d)); [lia |].
    assert (Hp : 0 < 10 ^ (- exp d)) by (apply Z.pow_pos_nonneg; lia).
    set (p := 10 ^ (- exp d)) in *.
    assert (Hq : 0 <= Z.abs (coef d) / p) by (apply Z.div_pos; lia).
    pose proof (Z.mul_div_le (Z.abs (coef d)) p Hp).
    pose proof (Z.mul_succ_div_gt (Z.abs (coef d)) p Hp).
    destruct (Z.sgn_spec (coef d)) as [[? ->]|[[? ->]|[? ->]]].
    + rewrite Z.mul_1_l, (Z.abs_eq (_ / _)) by lia. split; nia.
    + rewrite Z.mul_0_l. simpl Z.abs. replace (Z.abs (coef d)) with 0 by lia.
      split; lia.
    + replace (-1 * (Z.abs (coef d) / p)) with (- (Z.abs (coef d) / p)) by lia.
      rewrite Z.abs_opp, (Z.abs_eq (_ / _)) by lia. split; nia.
Qed.

(** C10: constructing [Money] with no arguments, in an environment whose
    currency registry holds the sentinel code, yields an amount equal to
    [Decimal('0.0')] and the currency registered under ['XYZ']. *)
Theorem Money_default_arguments st c :
  CURRENCIES st !! DEFAULT_CURRENCY_CODE = Some c ->
  code c = "XYZ" ->
  exists m,
    Money_new st None None = Ok m /\
    Dec.eqb (amount m) (mkDecimal 0 (-1)) = true /\
    currency m = c /\
    code (currency m) = "XYZ" /\
    (amount_decimal_places m <> 0 -> amount m = mkDecimal 0 (-1)).
Proof.
  intros Hreg Hcode.
  unfold Money_new, Money_init, default_amount, default_currency.
  cbn [default to_decimal to_currency res_bind].
  unfold get_currency.
  change (upper DEFAULT_CURRENCY_CODE) with DEFAULT_CURRENCY_CODE.
  rewrite Hreg; cbn [res_bind].
  destruct (decimal_places_override st (code c)) as [adp ddp].
  eexists; split; [reflexivity|]; simpl.
  destruct (Z.eqb_spec adp 0); repeat split; auto; congruence.
Qed.

Lemma Money_default_arguments_witness :
  CURRENCIES st_default !! DEFAULT_CURRENCY_CODE = Some XYZ /\
  code XYZ = "XYZ" /\
  exists m,
    Money_new st_default None None = Ok m /\
    Dec.eqb (amount m) (mkDecimal 0 (-1)) = true /\
    currency m = XYZ /\
    code (currency m) = "XYZ" /\
    (amount_decimal_places m <> 0 -> amount m = mkDecimal 0 (-1)).
Proof.
  split; [reflexivity|]. split; [reflexivity|].
  apply (Money_default_arguments st_default XYZ); reflexivity.
Defined.

(** C3: when the resolved [amount_decimal_places] is 0 the stored amount is
    the input cut off toward zero, as an integral [Decimal]; otherwise the
    stored amount is the input, digit for digit. *)
Theorem Money_init_zero_places_truncates st a c m d :
  to_decimal a = Ok d ->
  Money_init st a c = Ok m ->
  amount_decimal_places m =
    fst (decimal_places_override st (code (currency m))) /\
  (amount_decimal_places m = 0 ->
     amount m = Dec.of_int (Dec.trunc d) /\
     Dec.truncates_toward_zero d (Dec.trunc d)) /\
  (amount_decimal_places m <> 0 -> amount m = d).
Proof.
  intros Hd Hm.
  destruct (Money_init_inv _ _ _ _ Hm) as (d' & cur & Hd' & _ & Hc & Hadp & _ & Ha).
  rewrite Hd in Hd'; injection Hd' as <-.
  split; [congruence|].
  split; intros Hz; rewrite Ha.
  - rewrite Hz; simpl. split; [reflexivity | apply trunc_toward_zero].
  - destruct (Z.eqb_spec (amount_decimal_places m) 0); [contradiction | reflexivity].
Qed.

Lemma Money_init_zero_places_truncates_witness :
  let d := mkDecimal 1999 (-2) in
  let m := mkMoney (mkDecimal 19 0) JPY 0 0 in
  to_decimal (ADecimal d) = Ok d /\
  Money_init st_yen (ADecimal d) (CCode "JPY") = Ok m /\
  amount m = Dec.of_int 19.
Proof.
  intros d m.
  split; [reflexivity|]. split; [reflexivity|].
  apply (Money_init_zero_places_truncates st_yen (ADecimal d) (CCode "JPY") m d);
    reflexivity.
Defined.

Example Money_init_truncates_negative :
  Money_init st_yen (ADecimal (mkDecimal (-1999) (-2))) (CCode "JPY")
  = Ok (mkMoney (mkDecimal (-19) 0) JPY 0 0).
Proof. reflexivity. Qed.

Example Money_init_keeps_precision :
  Money_init st_default (AStr "19.990") (CCode "usd")
  = Ok (mkMoney (mkDecimal 19990 (-3)) USD 2 2).
Proof. reflexivity. Qed.

(** The display override is read only if the amount lookup did not fail. *)
Lemma display_places_after_amount_miss st c tbl :
  DECIMAL_PLACES_PER_CURRENCY st = Some tbl ->
  tbl !! c = None ->
  decimal_places_override st c = (DECIMAL_PLACES st, DECIMAL_PLACES st).
Proof. intros Ht Hc. unfold decimal_places_override. rewrite Ht, Hc. reflexivity. Qed.

Lemma display_places_without_amount_table st c :
  DECIMAL_PLACES_PER_CURRENCY st = None ->
  snd (decimal_places_override st c) =
  match DISPLAY_DECIMAL_PLACES_PER_CURRENCY st with
  | Some tbl => default (DECIMAL_PLACES st) (tbl !! c)
  | None => DECIMAL_PLACES st
  end.
Proof.
  intros Ht. unfold decimal_places_override. rewrite Ht.
  destruct (DISPLAY_DECIMAL_PLACES_PER_CURRENCY st) as [tbl|]; [|reflexivity].
  destruct (tbl !! c); reflexivity.
Qed.

(** C5: the display table has an entry for the yen, yet the constructed
    instance keeps the class default of 2 display places when the amount
    table is a [dict] without a yen entry; when the amount table is not a
    [dict], the same display table gives 0. *)
Theorem display_override_depends_on_amount_table :
  DISPLAY_DECIMAL_PLACES_PER_CURRENCY st_display_only = Some {["JPY" := 0]} /\
  DISPLAY_DECIMAL_PLACES_PER_CURRENCY st_display_nodict = Some {["JPY" := 0]} /\
  Money_init st_display_only (AInt 1) (CCode "JPY")
    = Ok (mkMoney (mkDecimal 1 0) JPY 2 2) /\
  Money_init st_display_nodict (AInt 1) (CCode "JPY")
    = Ok (mkMoney (mkDecimal 1 0) JPY 2 0).
Proof. repeat split; reflexivity. Qed.

(** ** Locale resolution *)

Example get_current_locale_en :
  get_current_locale to_locale_django (st_language "en-us") = "en_US".
Proof. reflexivity. Qed.



(** ** Arithmetic *)

Section ArithmeticFacts.

Context {F E : Type} `{Deferred F E}.
Variable convert_money : value F -> Currency -> Res Money.
Variable super_mul : Money -> value F -> Res (result E).
Variable super_truediv : Money -> value F -> Res (result E).

Lemma maybe_convert_off st v c :
  AUTO_CONVERT_MONEY st <> Some true ->
  maybe_convert convert_money st v c = (Ok v, nil).
Proof.
  intros Hoff. unfold maybe_convert.
  destruct (AUTO_CONVERT_MONEY st) as [[|]|]; try reflexivity; congruence.
Qed.

Lemma maybe_convert_on st v c :
  AUTO_CONVERT_MONEY st = Some true ->
  maybe_convert convert_money st v c =
  (match convert_money v c with Ok m => Ok (VMoney m) | Err e => Err e end,
   (v, c) :: nil).
Proof.
  intros Hon. unfold maybe_convert, bind, call_hook, ret. rewrite Hon.
  destruct (convert_money v c); reflexivity.
Qed.

Lemma currency_eqb_false a b :
  code a <> code b -> currency_eqb a b = false.
Proof. intros Hne. apply String.eqb_neq, Hne. Qed.

Lemma currency_eqb_true a b :
  code a = code b -> currency_eqb a b = true.
Proof. intros He. apply String.eqb_eq, He. Qed.

Lemma Money_add_off st a other :
  AUTO_CONVERT_MONEY st <> Some true ->
  Money_add convert_money st a other =
  match other with
  | VF f => (Ok (RExpr (radd f a)), nil)
  | _ => (super_add st a other, nil)
  end.
Proof.
  intros Hoff. unfold Money_add.
  destruct other; try reflexivity;
    rewrite (maybe_convert_off _ _ _ Hoff); unfold bind, lift; reflexivity.
Qed.

(** C9: when the right operand is a placeholder, each operator returns what
    the matching reflected operator of the placeholder builds from it and
    the receiver; the hook is not called, and neither the settings nor the
    receiver's currency play a part. *)
Theorem placeholder_delegation st self f :
  Money_add convert_money st self (VF f) = (Ok (RExpr (radd f self)), nil) /\
  Money_sub convert_money st self (VF f) = (Ok (RExpr (rsub f self)), nil) /\
  Money_mul super_mul self (VF f) = (Ok (RExpr (rmul f self)), nil) /\
  Money_truediv super_truediv self (VF f)
    = (Ok (RExpr (rtruediv f self)), nil).
Proof. repeat split; reflexivity. Qed.


(** C4, as amended: the hook is called when the flag is on and the right
    operand is not a placeholder, whatever the two currencies are; it is
    never called when the flag is off or the operand is a placeholder. *)
Theorem hook_called_when_flag_on st a other :
  (AUTO_CONVERT_MONEY st <> Some true ->
     snd (Money_add convert_money st a other) = nil /\
     snd (Money_sub convert_money st a other) = nil) /\
  (forall f, other = VF f ->
     snd (Money_add convert_money st a other) = nil /\
     snd (Money_sub convert_money st a other) = nil) /\
  (AUTO_CONVERT_MONEY st = Some true ->
     (forall f, other <> VF f) ->
     snd (Money_add convert_money st a other) = (other, currency a) :: nil /\
     exists t,
       snd (Money_sub convert_money st a other) = (other, currency a) :: t).
Proof.
  split; [|split].
  - intros Hoff. split.
    + rewrite (Money_add_off _ _ _ Hoff). destruct other; reflexivity.
    + unfold Money_sub. destruct other as [o|d|f]; try reflexivity;
        rewrite (maybe_convert_off _ _ _ Hoff); unfold bind, super_sub, lift;
        cbn [value_neg]; rewrite ?Money_init_values; cbn [res_bind bind];
        rewrite (Money_add_off _ _ _ Hoff); reflexivity.
  - intros f ->. split; reflexivity.
  - intros Hon Hnf. split.
    + unfold Money_add.
      destruct other as [o|d|f]; [| |destruct (Hnf f eq_refl)];
        rewrite (maybe_convert_on _ _ _ Hon); unfold bind, lift;
        destruct (convert_money _ _); reflexivity.
    + unfold Money_sub.
      destruct other as [o|d|f]; [| |destruct (Hnf f eq_refl)];
        rewrite (maybe_convert_on _ _ _ Hon); unfold bind;
        (destruct (convert_money _ _); [|eexists; reflexivity]);
        destruct (super_sub _ _ _ _); eexists; reflexivity.
Qed.

End ArithmeticFacts.


(** The example of the specification: the stub returns [Money(9, "USD")]
    for the euro operand, and the sum is [Money(19, "USD")]. *)
Example add_converted_example :
  sample_hook (VMoney eur10) USD = Ok (mkMoney (mkDecimal 9 0) USD 2 2) /\
  Money_add sample_hook st_convert usd10 (VMoney eur10)
  = (Ok (RMoney (mkMoney (mkDecimal 19 0) USD 2 2)),
     (VMoney eur10, USD) :: nil).
Proof. split; reflexivity. Qed.

Example add_mismatch_example :
  Money_add sample_hook st_default usd10 (VMoney eur10)
  = (Err CurrencyMismatch, nil).
Proof. reflexivity. Qed.

(** C4 fails as stated: with the flag on, the hook is called for two
    operands that are both in dollars. *)
Lemma hook_called_for_equal_currencies :
  ~ (snd (Money_add sample_hook st_convert usd10 (VMoney usd10)) <> nil ->
     AUTO_CONVERT_MONEY st_convert = Some true /\
     currency_eqb (currency usd10) (currency usd10) = false).
Proof.
  intros Hclaim. destruct Hclaim as [_ Hdiff]; discriminate.
Qed.

Example placeholder_example :
  Money_add sample_hook st_convert usd10 (VF "price")
  = (Ok (RExpr (Combined usd10 "+" "price")), nil).
Proof. reflexivity. Qed.

(** ** Objects are never written to *)

Module ObjFacts.

Section Frame.

Context {F E : Type} `{Deferred F E}.
Variable convert_money : value F -> Currency -> Res Money.
Variable super_mul : Money -> value F -> Res (result E).
Variable super_truediv : Money -> value F -> Res (result E).

Lemma preserving_hret {A} (a : A) : Obj.preserving (Obj.hret a).
Proof. intros h r h' [= _ <-]. reflexivity. Qed.

Lemma preserving_hraise {A} e : Obj.preserving (@Obj.hraise A e).
Proof. intros h r h' [= _ <-]. reflexivity. Qed.

Lemma preserving_hlift {A} (x : Res A) : Obj.preserving (Obj.hlift x).
Proof. intros h r h' [= _ <-]. reflexivity. Qed.

Lemma preserving_deref l : Obj.preserving (Obj.deref l).
Proof.
  intros h r h'. unfold Obj.deref.
  destruct (h !! l); intros [= _ <-]; reflexivity.
Qed.

Lemma preserving_alloc m : Obj.preserving (Obj.alloc m).
Proof.
  intros h r h' [= _ <-].
  apply insert_subseteq, not_elem_of_dom, is_fresh.
Qed.

Lemma preserving_hbind {A B} (c : Obj.HM A) (k : A -> Obj.HM B) :
  Obj.preserving c -> (forall a, Obj.preserving (k a)) -> Obj.preserving (Obj.hbind c k).
Proof.
  intros Hc Hk h r h'. unfold Obj.hbind.
  destruct (c h) as [[a|e] h1] eqn:Hch.
  - intros Hkh. etransitivity; [eapply Hc, Hch | eapply Hk, Hkh].
  - intros [= _ <-]. eapply Hc, Hch.
Qed.

Create HintDb preserving.
#[local] Hint Resolve preserving_hret preserving_hraise preserving_hlift
  preserving_deref preserving_alloc : preserving.
#[local] Hint Extern 2 (Obj.preserving (Obj.hbind _ _)) =>
  apply preserving_hbind; [|intro] : preserving.
#[local] Hint Extern 3 (Obj.preserving (match ?x with _ => _ end)) =>
  destruct x : preserving.
#[local] Hint Extern 3 (Obj.preserving (if ?x then _ else _)) =>
  destruct x : preserving.

Lemma preserving_new_Money st a c : Obj.preserving (Obj.new_Money st a c).
Proof. unfold Obj.new_Money. auto with preserving. Qed.
#[local] Hint Resolve preserving_new_Money : preserving.

Lemma preserving_load o : Obj.preserving (Obj.load (F:=F) o).
Proof. unfold Obj.load. auto with preserving. Qed.
#[local] Hint Resolve preserving_load : preserving.

Lemma preserving_maybe_convert st o c :
  Obj.preserving (Obj.maybe_convert convert_money st o c).
Proof. unfold Obj.maybe_convert. auto 8 with preserving. Qed.
#[local] Hint Resolve preserving_maybe_convert : preserving.

Lemma preserving_super_add st a o : Obj.preserving (Obj.super_add (F:=F) (E:=E) st a o).
Proof. unfold Obj.super_add. auto 8 with preserving. Qed.
#[local] Hint Resolve preserving_super_add : preserving.

Lemma preserving_Money_add st a o :
  Obj.preserving (Obj.Money_add convert_money st a o).
Proof. unfold Obj.Money_add. destruct o; auto 8 with preserving. Qed.
#[local] Hint Resolve preserving_Money_add : preserving.

Lemma preserving_operand_neg st o : Obj.preserving (Obj.operand_neg (F:=F) st o).
Proof. unfold Obj.operand_neg. auto 8 with preserving. Qed.
#[local] Hint Resolve preserving_operand_neg : preserving.

Lemma preserving_Money_sub st a o :
  Obj.preserving (Obj.Money_sub convert_money st a o).
Proof.
  unfold Obj.Money_sub, Obj.super_sub. destruct o; auto 8 with preserving.
Qed.

Lemma preserving_store_result r : Obj.preserving (Obj.store_result (E:=E) r).
Proof. unfold Obj.store_result. auto with preserving. Qed.
#[local] Hint Resolve preserving_store_result : preserving.

Lemma preserving_Money_mul a o : Obj.preserving (Obj.Money_mul super_mul a o).
Proof. unfold Obj.Money_mul. destruct o; auto 8 with preserving. Qed.

Lemma preserving_Money_truediv a o :
  Obj.preserving (Obj.Money_truediv super_truediv a o).
Proof. unfold Obj.Money_truediv. destruct o; auto 8 with preserving. Qed.

Lemma preserving_Money_round st a n : Obj.preserving (Obj.Money_round st a n).
Proof. unfold Obj.Money_round. auto 8 with preserving. Qed.

(** At the level of objects [round] computes what it computes on values,
    and puts it in an object that did not exist before. *)
Lemma Money_round_object st h a m n :
  h !! a = Some m ->
  Obj.Money_round st a n h =
  match Money_round st m n with
  | Ok r => (Ok (fresh (dom h)), <[fresh (dom h) := r]> h)
  | Err e => (Err e, h)
  end.
Proof.
  intros Ha. unfold Obj.Money_round, Money_round, Obj.hbind, Obj.deref.
  rewrite Ha.
  destruct n as [k|].
  - destruct (Dec.quantize _ _ _); [|reflexivity].
    unfold Obj.new_Money, Obj.hbind, Obj.hlift. rewrite Money_init_values. reflexivity.
  - unfold Obj.new_Money, Obj.hbind, Obj.hlift.
    destruct (Money_init _ _ _); reflexivity.
Qed.

(** C8: an object that exists before [round] or an arithmetic operator is
    called has the same attributes afterwards, whatever the operation
    returns; this holds for the receiver (and for every other object), and
    the object returned by [round] is not the receiver. *)
Theorem operations_do_not_mutate st h a m :
  h !! a = Some m ->
  (forall n r h',
     Obj.Money_round st a n h = (r, h') ->
     h' !! a = Some m /\ (forall b, r = Ok b -> b <> a)) /\
  (forall other r h',
     Obj.Money_add convert_money st a other h = (r, h') \/
     Obj.Money_sub convert_money st a other h = (r, h') \/
     Obj.Money_mul super_mul a other h = (r, h') \/
     Obj.Money_truediv super_truediv a other h = (r, h') ->
     h' !! a = Some m /\
     (forall l x, h !! l = Some x -> h' !! l = Some x)).
Proof.
  intros Ha. split.
  - intros n r h' Hr. split.
    + eapply lookup_weaken; [exact Ha | eapply preserving_Money_round, Hr].
    + intros b ->. rewrite (Money_round_object _ _ _ _ _ Ha) in Hr.
      destruct (Money_round st m n); [|discriminate].
      injection Hr as <- _. intros Hfr.
      apply (is_fresh (dom h)). rewrite Hfr. apply elem_of_dom; eauto.
  - intros other r h' Hop.
    assert (Hsub : h ⊆ h').
    { destruct Hop as [Hop|[Hop|[Hop|Hop]]].
      - eapply preserving_Money_add, Hop.
      - eapply preserving_Money_sub, Hop.
      - eapply preserving_Money_mul, Hop.
      - eapply preserving_Money_truediv, Hop. }
    split; [|intros l x Hl]; eapply lookup_weaken; eauto.
Qed.

(** *** The methods on objects compute what the methods on values do *)

Lemma load_ref h l m :
  h !! l = Some m -> Obj.load (F:=F) (Obj.ORef l) h = (Ok (VMoney m), h).
Proof. intros Hl. unfold Obj.load, Obj.hbind, Obj.deref. rewrite Hl. reflexivity. Qed.

Lemma lookup_alloc_old (h : Obj.heap) l m x :
  h !! l = Some m -> <[fresh (dom h) := x]> h !! l = Some m.
Proof.
  intros Hl. rewrite lookup_insert_ne; [exact Hl|].
  intros Heq. apply (is_fresh (dom h)). rewrite Heq. apply elem_of_dom; eauto.
Qed.

Lemma super_add_object st h a s (o : @Obj.operand F) (v : value F) :
  h !! a = Some s ->
  Obj.load o h = (Ok v, h) ->
  Obj.agrees (Obj.super_add st a o h) (super_add (E:=E) st s v).
Proof.
  intros Ha Hv. destruct o as [b|d|f].
  - unfold Obj.load, Obj.hbind, Obj.deref in Hv.
    destruct (h !! b) as [ob|] eqn:Hb; [|discriminate].
    injection Hv as <-.
    unfold Obj.super_add, Obj.hbind, Obj.deref. rewrite Ha, Hb.
    cbn [super_add].
    destruct (currency_eqb (currency s) (currency ob)); [|reflexivity].
    unfold Obj.new_Money, Obj.hbind, Obj.hlift.
    rewrite Money_init_values. cbn [res_bind]. simpl.
    apply lookup_insert_eq.
  - injection Hv as <-. cbn [Obj.super_add super_add].
    destruct (Dec.eqb d (Dec.of_int 0)); simpl; [exact Ha | reflexivity].
  - injection Hv as <-. reflexivity.
Qed.

Lemma Money_add_object st h a s (o : @Obj.operand F) (v : value F) :
  h !! a = Some s ->
  Obj.load o h = (Ok v, h) ->
  Obj.agrees (Obj.Money_add convert_money st a o h)
    (fst (Money_add convert_money st s v)).
Proof.
  intros Ha Hv.
  assert (Hgen : Obj.agrees (E:=E)
            (Obj.hbind (Obj.deref a) (fun s0 =>
               Obj.hbind (Obj.maybe_convert convert_money st o (currency s0))
                 (fun o' => Obj.super_add st a o')) h)
            (fst (bind (maybe_convert convert_money st v (currency s))
                    (fun v' => lift (super_add st s v'))))).
  { unfold Obj.hbind at 1. unfold Obj.deref. rewrite Ha.
    unfold Obj.maybe_convert, maybe_convert.
    destruct (AUTO_CONVERT_MONEY st) as [[|]|].
    - unfold Obj.hbind, Obj.hlift, Obj.alloc, Obj.hret, bind, call_hook, ret, lift.
      rewrite Hv.
      destruct (convert_money v (currency s)) as [m|e]; [|reflexivity].
      cbn [fst].
      apply super_add_object; [apply lookup_alloc_old, Ha|].
      apply load_ref, lookup_insert_eq.
    - unfold Obj.hbind, Obj.hret, bind, ret, lift. cbn [fst].
      apply super_add_object; assumption.
    - unfold Obj.hbind, Obj.hret, bind, ret, lift. cbn [fst].
      apply super_add_object; assumption. }
  destruct o as [b|d|f].
  - assert (Hvb : exists ob, v = VMoney ob).
    { unfold Obj.load, Obj.hbind, Obj.deref in Hv.
      destruct (h !! b); [injection Hv as <-; eauto | discriminate]. }
    destruct Hvb as [ob ->]. exact Hgen.
  - assert (Hvd : v = VNum d) by (injection Hv as <-; reflexivity).
    subst v. exact Hgen.
  - assert (Hvf : v = VF f) by (injection Hv as <-; reflexivity).
    subst v. unfold Obj.Money_add, Obj.hbind, Obj.deref. rewrite Ha.
    reflexivity.
Qed.

Lemma fst_bind {A B} (c : M (F:=F) A) (k : A -> M (F:=F) B) :
  fst (bind c k) = match fst c with Ok a => fst (k a) | Err e => Err e end.
Proof.
  unfold bind. destruct c as [[a|e] t]; [|reflexivity].
  cbn [fst]. destruct (k a); reflexivity.
Qed.

Lemma maybe_convert_object st h (o : @Obj.operand F) (v : value F) c :
  Obj.load o h = (Ok v, h) ->
  match Obj.maybe_convert convert_money st o c h with
  | (Ok o', h') =>
      exists v', fst (maybe_convert convert_money st v c) = Ok v' /\
                 Obj.load o' h' = (Ok v', h') /\ h ⊆ h'
  | (Err e, _) => fst (maybe_convert convert_money st v c) = Err e
  end.
Proof.
  intros Hv. unfold Obj.maybe_convert, maybe_convert.
  destruct (AUTO_CONVERT_MONEY st) as [[|]|];
    try (exists v; repeat split; [exact Hv | reflexivity]).
  unfold Obj.hbind, Obj.hlift, Obj.alloc, Obj.hret, bind, call_hook, ret.
  rewrite Hv. destruct (convert_money v c) as [m|e]; [|reflexivity].
  exists (VMoney m). split; [reflexivity|]. split.
  - apply load_ref, lookup_insert_eq.
  - apply insert_subseteq, not_elem_of_dom, is_fresh.
Qed.

Lemma operand_neg_object st h (o : @Obj.operand F) (v : value F) :
  Obj.load o h = (Ok v, h) ->
  match Obj.operand_neg st o h with
  | (Ok o', h') =>
      exists v', value_neg st v = Ok v' /\
                 Obj.load o' h' = (Ok v', h') /\ h ⊆ h'
  | (Err e, _) => value_neg st v = Err e
  end.
Proof.
  intros Hv. destruct o as [b|d|f].
  - unfold Obj.load, Obj.hbind, Obj.deref in Hv.
    destruct (h !! b) as [ob|] eqn:Hb; [|discriminate].
    injection Hv as <-.
    unfold Obj.operand_neg, Obj.hbind, Obj.deref. rewrite Hb.
    unfold Obj.new_Money, Obj.hbind, Obj.hlift, value_neg.
    rewrite Money_init_values. cbn [res_bind]. simpl.
    eexists; split; [reflexivity|]. split.
    + apply load_ref, lookup_insert_eq.
    + apply insert_subseteq, not_elem_of_dom, is_fresh.
  - injection Hv as <-. simpl. eexists; repeat split; reflexivity.
  - injection Hv as <-. reflexivity.
Qed.

Lemma Money_sub_object st h a s (o : @Obj.operand F) (v : value F) :
  h !! a = Some s ->
  Obj.load o h = (Ok v, h) ->
  Obj.agrees (Obj.Money_sub convert_money st a o h)
    (fst (Money_sub convert_money st s v)).
Proof.
  intros Ha Hv.
  assert (Hgen : Obj.agrees (E:=E)
            (Obj.hbind (Obj.deref a) (fun s0 =>
               Obj.hbind (Obj.maybe_convert convert_money st o (currency s0))
                 (fun o' => Obj.super_sub convert_money st a o')) h)
            (fst (bind (maybe_convert convert_money st v (currency s))
                    (fun v' => super_sub convert_money st s v')))).
  { unfold Obj.hbind at 1. unfold Obj.deref. rewrite Ha.
    rewrite fst_bind. unfold Obj.hbind at 1.
    pose proof (maybe_convert_object st h o v (currency s) Hv) as Hmc.
    destruct (Obj.maybe_convert convert_money st o (currency s) h)
      as [[o1|e1] h1].
    2:{ rewrite Hmc. reflexivity. }
    destruct Hmc as (v1 & -> & Hv1 & Hsub1).
    unfold Obj.super_sub, super_sub. rewrite fst_bind. unfold Obj.hbind.
    pose proof (operand_neg_object st h1 o1 v1 Hv1) as Hneg.
    destruct (Obj.operand_neg st o1 h1) as [[o2|e2] h2].
    2:{ unfold lift. cbn [fst]. rewrite Hneg. reflexivity. }
    destruct Hneg as (v2 & Hv2 & Hl2 & Hsub2).
    unfold lift. cbn [fst]. rewrite Hv2.
    apply Money_add_object; [|exact Hl2].
    eapply lookup_weaken; [|exact Hsub2].
    eapply lookup_weaken; [exact Ha | exact Hsub1]. }
  destruct o as [b|d|f].
  - assert (Hvb : exists ob, v = VMoney ob).
    { unfold Obj.load, Obj.hbind, Obj.deref in Hv.
      destruct (h !! b); [injection Hv as <-; eauto | discriminate]. }
    destruct Hvb as [ob ->]. exact Hgen.
  - assert (Hvd : v = VNum d) by (injection Hv as <-; reflexivity).
    subst v. exact Hgen.
  - assert (Hvf : v = VF f) by (injection Hv as <-; reflexivity).
    subst v. unfold Obj.Money_sub, Obj.hbind, Obj.deref. rewrite Ha.
    reflexivity.
Qed.

End Frame.

End ObjFacts.

Lemma operations_do_not_mutate_witness :
  let a := mkMoney (mkDecimal 2345 (-3)) USD 2 2 in
  let b := mkMoney (mkDecimal 234 (-2)) USD 2 2 in
  let h : Obj.heap := {[ 1%positive := a ]} in
  h !! 1%positive = Some a /\
  Obj.Money_round st_default 1%positive (Some 2) h
    = (Ok 2%positive, <[2%positive := b]> h) /\
  <[2%positive := b]> h !! 1%positive = Some a.
Proof.
  intros a b h.
  split; [reflexivity|]. split; [vm_compute; reflexivity|].
  refine (proj1 (proj1 (ObjFacts.operations_do_not_mutate sample_hook
                          no_super no_super st_default h 1%positive a eq_refl)
                   (Some 2) (Ok 2%positive) _ _)).
  vm_compute; reflexivity.
Defined.

(** ** Digits and rounding of decimals *)

Module DecFacts.
Import Dec.

Lemma digits_fuel_0 fuel : digits_fuel fuel 0 = 0.
Proof. destruct fuel; reflexivity. Qed.

Lemma digits_fuel_spec fuel : forall z,
  0 < z -> z < 2 ^ Z.of_nat fuel ->
  1 <= digits_fuel fuel z /\
  10 ^ (digits_fuel fuel z - 1) <= z < 10 ^ digits_fuel fuel z.
Proof.
  induction fuel as [|f IH]; intros z Hz Hlt.
  - simpl in Hlt. lia.
  - cbn [digits_fuel].
    destruct (Z.eqb_spec z 0); [lia|].
    rewrite Nat2Z.inj_succ, Z.pow_succ_r in Hlt by lia.
    destruct (Z.eq_dec (z / 10) 0) as [Hq|Hq].
    + rewrite Hq, digits_fuel_0.
      assert (z < 10) by (apply Z.div_small_iff in Hq; lia).
      simpl. lia.
    + assert (Hq0 : 0 < z / 10).
      { pose proof (Z.div_pos z 10). lia. }
      assert (Hq1 : z / 10 < 2 ^ Z.of_nat f).
      { apply Z.div_lt_upper_bound; lia. }
      destruct (IH _ Hq0 Hq1) as (Hd & Hlo & Hhi).
      set (d := digits_fuel f (z / 10)) in *.
      replace (1 + d - 1) with (Z.succ (d - 1)) by lia.
      replace (1 + d) with (Z.succ d) by lia.
      rewrite !Z.pow_succ_r by lia.
      pose proof (Z.mul_div_le z 10).
      pose proof (Z.mul_succ_div_gt z 10).
      lia.
Qed.

Lemma ndigits_spec z :
  z <> 0 ->
  1 <= ndigits z /\ 10 ^ (ndigits z - 1) <= Z.abs z < 10 ^ ndigits z.
Proof.
  intros Hz. unfold ndigits.
  destruct (Z.eqb_spec z 0); [contradiction|].
  apply digits_fuel_spec; [lia|].
  rewrite Nat2Z.inj_succ, Z2Nat.id by apply Z.log2_nonneg.
  apply Z.log2_spec. lia.
Qed.

Lemma ndigits_pos z : 1 <= ndigits z.
Proof.
  destruct (Z.eq_dec z 0) as [->|Hz]; [reflexivity | apply ndigits_spec, Hz].
Qed.

(** A non-zero coefficient has at most [n] digits exactly when it is below
    [10 ^ n]. *)
Lemma ndigits_le_iff z n :
  z <> 0 -> ndigits z <= n <-> Z.abs z < 10 ^ n.
Proof.
  intros Hz. destruct (ndigits_spec z Hz) as (H1 & Hlo & Hhi). split.
  - intros Hle. eapply Z.lt_le_trans; [exact Hhi|].
    apply Z.pow_le_mono_r; lia.
  - intros Hlt. destruct (Z_le_gt_dec (ndigits z) n) as [|Hgt]; [assumption|].
    exfalso.
    destruct (Z_lt_le_dec n 0) as [Hn|Hn].
    + rewrite Z.pow_neg_r in Hlt by assumption. lia.
    + assert (10 ^ n <= 10 ^ (ndigits z - 1)) by (apply Z.pow_le_mono_r; lia).
      lia.
Qed.

Lemma ndigits_fits z n :
  z <> 0 -> (n <? ndigits z) = false <-> Z.abs z < 10 ^ n.
Proof.
  intros Hz. rewrite Z.ltb_ge. apply ndigits_le_iff, Hz.
Qed.

(** The two digit counts agree once they bracket the same number. *)
Lemma digits_unique x a b :
  1 <= a -> 1 <= b ->
  10 ^ (a - 1) <= x < 10 ^ a -> 10 ^ (b - 1) <= x < 10 ^ b -> a = b.
Proof.
  intros Ha Hb [Hal Hah] [Hbl Hbh].
  destruct (Z.lt_trichotomy a b) as [Hlt|[Heq|Hgt]]; [|assumption|]; exfalso.
  - assert (10 ^ a <= 10 ^ (b - 1)) by (apply Z.pow_le_mono_r; lia). lia.
  - assert (10 ^ b <= 10 ^ (a - 1)) by (apply Z.pow_le_mono_r; lia). lia.
Qed.

Lemma ndigits_mul_pow10 z j :
  z <> 0 -> 0 <= j -> ndigits (z * 10 ^ j) = ndigits z + j.
Proof.
  intros Hz Hj.
  assert (Hp : 0 < 10 ^ j) by (apply Z.pow_pos_nonneg; lia).
  assert (Hzp : z * 10 ^ j <> 0) by nia.
  destruct (ndigits_spec z Hz) as (H1 & Hlo & Hhi).
  destruct (ndigits_spec _ Hzp) as (H1' & Hlo' & Hhi').
  apply (digits_unique (Z.abs (z * 10 ^ j))); try lia.
  rewrite Z.abs_mul, (Z.abs_eq (10 ^ j)) by lia.
  replace (ndigits z + j - 1) with ((ndigits z - 1) + j) by lia.
  rewrite !Z.pow_add_r by lia. nia.
Qed.

Lemma exp_rescale d e : exp (rescale d e) = e.
Proof.
  unfold rescale.
  destruct (coef d =? 0); [reflexivity|]. destruct (e <=? exp d); reflexivity.
Qed.

Lemma rescale_same d : coef d <> 0 -> rescale d (exp d) = d.
Proof.
  intros Hc. unfold rescale.
  destruct (Z.eqb_spec (coef d) 0); [contradiction|].
  rewrite Z.leb_refl, Z.sub_diag, Z.mul_1_r. destruct d; reflexivity.
Qed.

End DecFacts.

Module RoundFacts.
Import Dec DecFacts.

(** Dropping [k] digits of a multiple of [10 ^ k] is exact. *)
Lemma half_even_exact c k : 0 <= k -> half_even (c * 10 ^ k) k = c.
Proof.
  intros Hk. unfold half_even.
  assert (Hp : 0 < 10 ^ k) by (apply Z.pow_pos_nonneg; lia).
  rewrite Z.div_mul, Z.mod_mul by lia.
  destruct (Z.ltb_spec (10 ^ k) (2 * 0)); [lia|].
  destruct (Z.eqb_spec (2 * 0) (10 ^ k)); [lia|]. reflexivity.
Qed.

(** [half_even c k] is an integer nearest to [c / 10 ^ k], and the even one
    of the two when [c] lies half way. *)
Lemma half_even_nearest c k :
  0 <= c -> 0 <= k ->
  0 <= half_even c k /\
  2 * Z.abs (half_even c k * 10 ^ k - c) <= 10 ^ k /\
  (2 * Z.abs (half_even c k * 10 ^ k - c) = 10 ^ k ->
   Z.even (half_even c k) = true).
Proof.
  intros Hc Hk. unfold half_even.
  assert (Hp : 0 < 10 ^ k) by (apply Z.pow_pos_nonneg; lia).
  set (p := 10 ^ k) in *.
  pose proof (Z.div_mod c p ltac:(lia)) as Hdm.
  pose proof (Z.mod_pos_bound c p Hp) as Hr.
  assert (Hq : 0 <= c / p) by (apply Z.div_pos; lia).
  set (q := c / p) in *. set (r := c mod p) in *.
  destruct (Z.ltb_spec p (2 * r)) as [Hgt|Hle]; cbn [orb].
  - split; [lia|]. split; [nia|]. intros Htie. exfalso. nia.
  - destruct (Z.eqb_spec (2 * r) p) as [Heq|Hne]; cbn [andb].
    + destruct (Z.odd q) eqn:Hodd.
      * split; [lia|]. split; [nia|]. intros _.
        rewrite Z.add_1_r, Z.even_succ. exact Hodd.
      * split; [lia|]. split; [nia|]. intros _.
        rewrite <- Z.negb_odd, Hodd. reflexivity.
    + split; [lia|]. split; [nia|]. intros Htie. exfalso. nia.
Qed.

Lemma rescale_rounded d e : rounded_half_even d e (rescale d e).
Proof.
  unfold rounded_half_even. split; [apply exp_rescale|].
  unfold rescale.
  destruct (Z.eqb_spec (coef d) 0) as [Hz|Hz]; cbn [coef].
  - rewrite Hz. split; [intros; lia|]. intros He.
    assert (0 < 10 ^ (e - exp d)) by (apply Z.pow_pos_nonneg; lia).
    split; [lia|]. intros; lia.
  - destruct (Z.leb_spec e (exp d)) as [Hle|Hgt]; cbn [coef].
    + split; [reflexivity | lia].
    + split; [lia|]. intros _.
      destruct (half_even_nearest (Z.abs (coef d)) (e - exp d))
        as (Hh0 & Hnear & Htie); [lia | lia |].
      set (h := half_even (Z.abs (coef d)) (e - exp d)) in *.
      set (p := 10 ^ (e - exp d)) in *.
      assert (Habs : Z.abs (Z.sgn (coef d) * h * p - coef d)
                     = Z.abs (h * p - Z.abs (coef d))).
      { destruct (Z.sgn_spec (coef d)) as [[? ->]|[[? ->]|[? ->]]]; lia. }
      rewrite Habs. split; [exact Hnear|]. intros Ht.
      specialize (Htie Ht).
      destruct (Z.sgn_spec (coef d)) as [[? ->]|[[? ->]|[? ->]]];
        [rewrite Z.mul_1_l; exact Htie | lia |].
      replace (-1 * h) with (- h) by lia. rewrite Z.even_opp. exact Htie.
Qed.

(** What a successful [quantize] returns. *)
Lemma quantize_inv prec d e q :
  quantize prec d e = Some q ->
  q = rescale d e /\ (coef q = 0 \/ Z.abs (coef q) < 10 ^ prec).
Proof.
  unfold quantize, rescale.
  destruct (Z.eqb_spec (coef d) 0) as [Hz|Hz].
  - intros [= <-]. auto.
  - destruct (prec <? ndigits (coef d) + exp d - e); [discriminate|].
    match goal with |- context [ndigits (coef ?x)] => set (r := x) end.
    destruct (prec <? ndigits (coef r)) eqn:Hfit; [discriminate|].
    intros [= <-]. split; [reflexivity|].
    destruct (Z.eq_dec (coef r) 0) as [|Hr]; [left; assumption|].
    right. apply ndigits_fits; assumption.
Qed.

(** Quantizing a second time to the same exponent changes nothing. *)
Lemma quantize_idempotent prec d e q :
  quantize prec d e = Some q -> quantize prec q e = Some q.
Proof.
  intros Hq. destruct (quantize_inv _ _ _ _ Hq) as (Hres & Hfit).
  assert (He : exp q = e) by (rewrite Hres; apply exp_rescale).
  unfold quantize.
  destruct (Z.eqb_spec (coef q) 0) as [Hz|Hz].
  - destruct q as [c x]; simpl in *; congruence.
  - destruct Hfit as [|Hfit]; [contradiction|].
    apply (ndigits_fits _ prec Hz) in Hfit.
    replace (ndigits (coef q) + exp q - e) with (ndigits (coef q)) by lia.
    rewrite <- He, (rescale_same q Hz), Hfit. reflexivity.
Qed.

Lemma trunc_zero_coef e : trunc (mkDecimal 0 e) = 0.
Proof. unfold trunc; simpl. destruct (0 <=? e); reflexivity. Qed.

Lemma trunc_of_int t : trunc (of_int t) = t.
Proof. unfold trunc, of_int; simpl. lia. Qed.

(** Quantizing the integer part of a quantized value to the same exponent
    succeeds and gives a value with the same integer part. *)
Lemma quantize_trunc prec d e q :
  quantize prec d e = Some q ->
  exists q', quantize prec (of_int (trunc q)) e = Some q' /\ trunc q' = trunc q.
Proof.
  intros Hq. destruct (quantize_inv _ _ _ _ Hq) as (Hres & Hfit).
  assert (He : exp q = e) by (rewrite Hres; apply exp_rescale).
  clear Hq Hres d.
  set (t := trunc q).
  unfold quantize, of_int; cbn [coef exp].
  destruct (Z.eqb_spec t 0) as [Ht|Ht].
  { eexists; split; [reflexivity|]. rewrite trunc_zero_coef. lia. }
  assert (Hcq : coef q <> 0).
  { intros Hz. apply Ht. unfold t, trunc. rewrite Hz.
    destruct (0 <=? exp q); reflexivity. }
  destruct Hfit as [|Hfit]; [contradiction|].
  destruct (trunc_toward_zero q) as [Hnn Hneg]. fold t in Hnn, Hneg.
  destruct (Z_le_gt_dec 0 e) as [Hpos|Hlt].
  - (* the quantized value is integral *)
    assert (Htq : t = coef q * 10 ^ e) by (rewrite <- He; apply Hnn; lia).
    assert (Hnd : ndigits t = ndigits (coef q) + e).
    { rewrite Htq. apply ndigits_mul_pow10; assumption. }
    assert (Hfit' : (prec <? ndigits (coef q)) = false)
      by (apply ndigits_fits; assumption).
    replace (ndigits t + 0 - e) with (ndigits (coef q)) by lia.
    rewrite Hfit'. unfold rescale; cbn [coef exp].
    destruct (Z.eqb_spec t 0); [contradiction|].
    destruct (Z.leb_spec e 0) as [He0|He0]; cbn [coef].
    + assert (He00 : e = 0) by lia.
      replace (0 - e) with 0 by lia. rewrite Z.mul_1_r.
      replace (ndigits t) with (ndigits (coef q)) by lia.
      rewrite Hfit'. eexists; split; [reflexivity|].
      unfold trunc; cbn [coef exp].
      destruct (Z.leb_spec 0 e); [|lia]. rewrite He00. simpl. lia.
    + assert (Hp : 0 < 10 ^ e) by (apply Z.pow_pos_nonneg; lia).
      assert (Hh : Z.sgn t * half_even (Z.abs t) (e - 0) = coef q).
      { rewrite Z.sub_0_r, Htq, Z.abs_mul, (Z.abs_eq (10 ^ e)) by lia.
        rewrite half_even_exact by lia.
        rewrite Z.sgn_mul, (Z.sgn_pos (10 ^ e)) by lia.
        rewrite Z.mul_1_r, Z.mul_comm. apply Z.abs_sgn. }
      rewrite Hh, Hfit'. eexists; split; [reflexivity|].
      unfold trunc; cbn [coef exp].
      destruct (Z.leb_spec 0 e); lia.
  - (* the quantized value has a fraction, which [trunc] dropped *)
    assert (Hp : 0 < 10 ^ (- e)) by (apply Z.pow_pos_nonneg; lia).
    destruct Hneg as [[Hlo _] _]; [lia|]. rewrite He in Hlo.
    assert (Hnd : ndigits (t * 10 ^ (- e)) = ndigits t + - e)
      by (apply ndigits_mul_pow10; lia).
    assert (Htp : t * 10 ^ (- e) <> 0) by nia.
    assert (Hfit' : (prec <? ndigits (t * 10 ^ (- e))) = false).
    { apply ndigits_fits; [assumption|].
      rewrite Z.abs_mul, (Z.abs_eq (10 ^ (- e))) by lia. lia. }
    replace (ndigits t + 0 - e) with (ndigits (t * 10 ^ (- e))) by lia.
    rewrite Hfit'. unfold rescale; cbn [coef exp].
    destruct (Z.eqb_spec t 0); [contradiction|].
    destruct (Z.leb_spec e 0); [|lia]. cbn [coef].
    replace (0 - e) with (- e) by lia.
    rewrite Hfit'. eexists; split; [reflexivity|].
    unfold trunc; cbn [coef exp].
    destruct (Z.leb_spec 0 e); [lia|].
    rewrite Z.abs_mul, (Z.abs_eq (10 ^ (- e))), Z.div_mul by lia.
    rewrite Z.sgn_mul, (Z.sgn_pos (10 ^ (- e))) by lia.
    rewrite Z.mul_1_r, Z.mul_comm. apply Z.abs_sgn.
Qed.

Lemma eqb_refl d : Dec.eqb d d = true.
Proof. unfold Dec.eqb. apply Z.eqb_refl. Qed.

(** The integer part of an integral value is numerically that value. *)
Lemma trunc_eqb_integral q :
  0 <= exp q \/ (exists c, coef q = c * 10 ^ (- exp q)) ->
  Dec.eqb (of_int (trunc q)) q = true.
Proof.
  intros Hint. unfold Dec.eqb, of_int, trunc; cbn [coef exp].
  apply Z.eqb_eq.
  destruct (Z.leb_spec 0 (exp q)) as [Hnn|Hneg].
  - rewrite Z.min_l by lia. rewrite !Z.sub_0_r. simpl (10 ^ 0). lia.
  - destruct Hint as [|[c Hc]]; [lia|].
    assert (Hp : 0 < 10 ^ (- exp q)) by (apply Z.pow_pos_nonneg; lia).
    replace (Z.min 0 (exp q)) with (exp q) by lia.
    replace (0 - exp q) with (- exp q) by lia.
    replace (exp q - exp q) with 0 by lia.
    set (p := 10 ^ (- exp q)) in *. rewrite Hc.
    rewrite Z.abs_mul, (Z.abs_eq p), Z.div_mul by lia.
    rewrite Z.sgn_mul, (Z.sgn_pos p) by lia.
    rewrite Z.mul_1_r, (Z.mul_comm (Z.sgn c)), Z.abs_sgn. simpl (10 ^ 0). lia.
Qed.

Lemma rescale_integral d e :
  0 <= exp d ->
  0 <= exp (rescale d e) \/
  (exists c, coef (rescale d e) = c * 10 ^ (- exp (rescale d e))).
Proof.
  intros Hd. rewrite exp_rescale.
  destruct (Z_le_gt_dec 0 e) as [|He]; [left; assumption|right].
  unfold rescale.
  destruct (Z.eqb_spec (coef d) 0); cbn [coef]; [exists 0; lia|].
  destruct (Z.leb_spec e (exp d)); [|lia]. cbn [coef].
  exists (coef d * 10 ^ exp d).
  replace (exp d - e) with (exp d + - e) by lia.
  rewrite Z.pow_add_r by lia. lia.
Qed.

End RoundFacts.

(** ** Rounding *)

Lemma Money_init_zero_places_integral st a c m :
  Money_init st a c = Ok m -> amount_decimal_places m = 0 -> exp (amount m) = 0.
Proof.
  intros Hm Hz. destruct (Money_init_inv _ _ _ _ Hm) as (d & cur & _ & _ & _ & _ & _ & Ha).
  rewrite Ha, Hz. reflexivity.
Qed.

(** C7: a successful [round] is a fixed point of [round] with the same
    digit count.  Its result has the currency of the receiver, the
    precision settings that the constructor resolves for that currency, and
    as amount the receiver's amount rounded half-to-even to the requested
    exponent (cut to its integer part by the constructor if the currency
    has zero decimal places, which changes nothing numerically when the
    receiver's amount was integral). *)
Theorem Money_round_idempotent st m n r :
  Money_round st m n = Ok r ->
  Money_round st r n = Ok r /\
  currency r = currency m /\
  (amount_decimal_places r, display_decimal_places r)
    = decimal_places_override st (code (currency m)) /\
  exists q,
    Dec.rounded_half_even (amount m)
      (match n with Some k => - k | None => 0 end) q /\
    (amount_decimal_places r <> 0 -> amount r = q) /\
    (amount_decimal_places r = 0 -> amount r = Dec.of_int (Dec.trunc q)) /\
    (amount_decimal_places r <> 0 \/ 0 <= exp (amount m) ->
     Dec.eqb (amount r) q = true).
Proof.
  intros Hr. destruct n as [k|]; unfold Money_round in Hr.
  - destruct (Dec.quantize _ _ _) as [q|] eqn:Hq; [|discriminate].
    rewrite Money_init_values in Hr. injection Hr as <-.
    cbn [amount currency amount_decimal_places display_decimal_places].
    destruct (RoundFacts.quantize_inv _ _ _ _ Hq) as (Hres & _).
    set (adp := (decimal_places_override st (code (currency m))).1).
    split; [|split; [reflexivity|split; [symmetry; apply surjective_pairing|]]].
    + unfold Money_round; cbn [amount currency].
      destruct (Z.eqb_spec adp 0) as [Hz|Hz].
      * destruct (RoundFacts.quantize_trunc _ _ _ _ Hq) as (q' & Hq' & Ht).
        rewrite Hq', Money_init_values. fold adp.
        destruct (Z.eqb_spec adp 0); [|contradiction]. rewrite Ht. reflexivity.
      * rewrite (RoundFacts.quantize_idempotent _ _ _ _ Hq), Money_init_values.
        fold adp. destruct (Z.eqb_spec adp 0); [contradiction|reflexivity].
    + exists q. split; [rewrite Hres; apply RoundFacts.rescale_rounded|].
      destruct (Z.eqb_spec adp 0) as [Hz|Hz].
      * split; [contradiction|]. split; [reflexivity|].
        intros [|Hint]; [contradiction|].
        apply RoundFacts.trunc_eqb_integral. rewrite Hres.
        apply RoundFacts.rescale_integral, Hint.
      * split; [reflexivity|]. split; [contradiction|].
        intros _. apply RoundFacts.eqb_refl.
  - assert (Hamt : forall d, Dec.of_int (Dec.trunc (Dec.rescale d 0)) = Dec.rescale d 0).
    { intros d. unfold Dec.trunc. rewrite DecFacts.exp_rescale. simpl (0 <=? 0).
      cbv iota. rewrite Z.pow_0_r, Z.mul_1_r.
      pose proof (DecFacts.exp_rescale d 0) as He.
      destruct (Dec.rescale d 0) as [c x]; simpl in *; subst x; reflexivity. }
    assert (Hinit : forall d cur,
      Money_init st (AInt (Dec.round_int d)) (CCurrency cur) =
      Ok (mkMoney (Dec.rescale d 0) cur
            (decimal_places_override st (code cur)).1
            (decimal_places_override st (code cur)).2)).
    { intros d cur. unfold Money_init, Dec.round_int; cbn [to_decimal to_currency res_bind].
      destruct (decimal_places_override st (code cur)) as [a' b'].
      cbn [fst snd]. rewrite !Hamt. destruct (a' =? 0); reflexivity. }
    rewrite Hinit in Hr. injection Hr as <-.
    cbn [amount currency amount_decimal_places display_decimal_places].
    split; [|split; [reflexivity|split; [symmetry; apply surjective_pairing|]]].
    + unfold Money_round; cbn [amount currency]. rewrite Hinit.
      destruct (Z.eq_dec (coef (Dec.rescale (amount m) 0)) 0) as [Hz|Hz].
      * do 2 f_equal. unfold Dec.rescale at 1. rewrite Hz. simpl.
        pose proof (DecFacts.exp_rescale (amount m) 0).
        destruct (Dec.rescale (amount m) 0); simpl in *; congruence.
      * do 2 f_equal.
        rewrite <- (DecFacts.exp_rescale (amount m) 0) at 2.
        apply DecFacts.rescale_same, Hz.
    + exists (Dec.rescale (amount m) 0).
      split; [apply RoundFacts.rescale_rounded|].
      split; [reflexivity|]. split; [intros _; symmetry; apply Hamt|].
      intros _. apply RoundFacts.eqb_refl.
Qed.

Lemma Money_round_idempotent_witness :
  let m := mkMoney (mkDecimal 2345 (-3)) USD 2 2 in
  let r := mkMoney (mkDecimal 234 (-2)) USD 2 2 in
  Money_round st_default m (Some 2) = Ok r /\
  Money_round st_default r (Some 2) = Ok r.
Proof.
  intros m r. split; [reflexivity|].
  exact (proj1 (Money_round_idempotent st_default m (Some 2) r eq_refl)).
Defined.

(** Ties go to the even neighbour. *)
Example Money_round_half_even :
  Money_round st_default (mkMoney (mkDecimal 2355 (-3)) USD 2 2) (Some 2)
    = Ok (mkMoney (mkDecimal 236 (-2)) USD 2 2) /\
  Money_round st_default (mkMoney (mkDecimal 25 (-1)) USD 2 2) None
    = Ok (mkMoney (mkDecimal 2 0) USD 2 2) /\
  Money_round st_default (mkMoney (mkDecimal 35 (-1)) USD 2 2) None
    = Ok (mkMoney (mkDecimal 4 0) USD 2 2).
Proof. repeat split; reflexivity. Qed.

(** The precision settings of the result come from the settings, not from
    the receiver; a result of more than [prec] digits is refused. *)
Example Money_round_resolves_again :
  Money_round st_yen (mkMoney (mkDecimal 1999 (-2)) JPY 5 7) (Some 1)
    = Ok (mkMoney (mkDecimal 20 0) JPY 0 0) /\
  Money_round st_default (mkMoney (mkDecimal 1 30) USD 2 2) (Some 2)
    = Err InvalidOperation.
Proof. split; reflexivity. Qed.

(** Without a digit count [round] always returns. *)
Lemma Money_round_None_total st m :
  exists r, Money_round st m None = Ok r.
Proof.
  unfold Money_round, Money_init; cbn [to_decimal to_currency res_bind].
  destruct (decimal_places_override st (code (currency m))).
  eexists; reflexivity.
Qed.

(** With one, it returns exactly when the quantized amount fits the
    precision of the context. *)
Lemma Money_round_Some_total st m k :
  (exists r, Money_round st m (Some k) = Ok r) <->
  (exists q, Dec.quantize (prec st) (amount m) (- k) = Some q).
Proof.
  unfold Money_round. destruct (Dec.quantize _ _ _) as [q|].
  - rewrite Money_init_values. split; eauto.
  - split; intros [x Hx]; discriminate.
Qed.

(** * Further properties of the module *)

(** ** Strings *)

Lemma upper_ascii_idem a : upper_ascii (upper_ascii a) = upper_ascii a.
Proof. destruct a as [[] [] [] [] [] [] [] []]; reflexivity. Qed.

Lemma upper_idem s : upper (upper s) = upper s.
Proof.
  induction s as [|a s IH]; [reflexivity|].
  cbn [upper]. rewrite upper_ascii_idem, IH. reflexivity.
Qed.


(** ** The constructor *)



(** X3: how the two precision attributes are resolved.  The amount
    precision is the entry of its table, or the default, whatever the
    display table holds.  The display precision is the entry of the
    display table, or the default; but it is the default as well whenever
    the amount table is a [dict] without an entry for the currency. *)
Theorem decimal_places_resolution st c :
  fst (decimal_places_override st c) =
    match DECIMAL_PLACES_PER_CURRENCY st with
    | Some tbl => default (DECIMAL_PLACES st) (tbl !! c)
    | None => DECIMAL_PLACES st
    end /\
  snd (decimal_places_override st c) =
    match DECIMAL_PLACES_PER_CURRENCY st with
    | Some tbl =>
        match tbl !! c with
        | None => DECIMAL_PLACES st
        | Some _ =>
            match DISPLAY_DECIMAL_PLACES_PER_CURRENCY st with
            | Some dtbl => default (DECIMAL_PLACES st) (dtbl !! c)
            | None => DECIMAL_PLACES st
            end
        end
    | None =>
        match DISPLAY_DECIMAL_PLACES_PER_CURRENCY st with
        | Some dtbl => default (DECIMAL_PLACES st) (dtbl !! c)
        | None => DECIMAL_PLACES st
        end
    end.
Proof.
  unfold decimal_places_override.
  destruct (DECIMAL_PLACES_PER_CURRENCY st) as [tbl|];
    [destruct (tbl !! c)|];
    try (split; reflexivity);
    destruct (DISPLAY_DECIMAL_PLACES_PER_CURRENCY st) as [dtbl|];
    try (split; reflexivity);
    destruct (dtbl !! c); split; reflexivity.
Qed.

Lemma Money_init_well_formed st a c m :
  Money_init st a c = Ok m -> well_formed st m.
Proof.
  intros Hm.
  destruct (Money_init_inv _ _ _ _ Hm) as (d & cur & _ & _ & Hc & Hadp & Hddp & Ha).
  split.
  - rewrite Hadp, Hddp, Hc. symmetry. apply surjective_pairing.
  - intros Hz. rewrite Ha, Hz. reflexivity.
Qed.

(** X4: building a [Money] again from the amount and the currency of one
    that the constructor built gives the same [Money]: the constructor
    changes nothing the second time. *)
Theorem Money_init_reconstruct st m :
  well_formed st m ->
  Money_init st (ADecimal (amount m)) (CCurrency (currency m)) = Ok m.
Proof.
  intros [Hpl Hint]. rewrite Money_init_values, <- Hpl. cbn [fst snd].
  destruct m as [[c x] cur adp ddp]; cbn in *.
  destruct (Z.eqb_spec adp 0) as [Hz|Hz]; [|reflexivity].
  rewrite (Hint Hz). unfold Dec.of_int, Dec.trunc; cbn [coef exp].
  simpl (0 <=? 0). cbv iota. rewrite Z.pow_0_r, Z.mul_1_r. reflexivity.
Qed.

Lemma Money_init_reconstruct_witness :
  let m := mkMoney (mkDecimal 19 0) JPY 0 0 in
  well_formed st_yen m /\
  Money_init st_yen (ADecimal (amount m)) (CCurrency (currency m)) = Ok m.
Proof.
  intros m.
  assert (Hwf : well_formed st_yen m) by (split; reflexivity).
  split; [exact Hwf|]. exact (Money_init_reconstruct st_yen m Hwf).
Defined.

(** ** Locale and rendering *)

(** X5: a locale that [get_current_locale] returns is empty or has a
    formatting definition under its upper-case form. *)
Theorem get_current_locale_defined to_locale st :
  get_current_locale to_locale st = "" \/
  upper (get_current_locale to_locale st) ∈ formatting_definitions st.
Proof.
  unfold get_current_locale.
  set (locale := to_locale (requested_language st)).
  destruct (decide (upper locale ∈ formatting_definitions st)) as [Hin|_];
    [right; exact Hin|].
  destruct (decide (upper (locale ++ "_" ++ locale)
                      ∈ formatting_definitions st)) as [Hin|_];
    [right | left; reflexivity].
  rewrite upper_idem. exact Hin.
Qed.



(** ** Rounding *)

(** What a successful [round] with a digit count returns. *)
Lemma Money_round_Some_inv st m k r :
  Money_round st m (Some k) = Ok r ->
  exists q,
    Dec.quantize (prec st) (amount m) (- k) = Some q /\
    q = Dec.rescale (amount m) (- k) /\
    (amount_decimal_places r <> 0 -> amount r = q) /\
    (amount_decimal_places r = 0 -> amount r = Dec.of_int (Dec.trunc q)).
Proof.
  unfold Money_round.
  destruct (Dec.quantize _ _ _) as [q|] eqn:Hq; [|discriminate].
  rewrite Money_init_values. intros [= <-].
  cbn [amount amount_decimal_places].
  exists q. split; [reflexivity|].
  split; [apply (RoundFacts.quantize_inv _ _ _ _ Hq)|].
  destruct (Z.eqb_spec (decimal_places_override st (code (currency m))).1 0);
    split; intros; (reflexivity || contradiction).
Qed.

(** X7: rounding to [k] digits gives an amount with exactly [k] fractional
    digits in a currency with decimal places; if the amount had no more
    than [k] already, its value is unchanged.  For a currency without
    decimal places, rounding an integral amount to [k >= 0] digits returns
    the same amount. *)
Theorem Money_round_pads st m k r :
  Money_round st m (Some k) = Ok r ->
  (amount_decimal_places r <> 0 ->
     exp (amount r) = - k /\
     (- k <= exp (amount m) -> Dec.eqb (amount r) (amount m) = true)) /\
  (amount_decimal_places r = 0 -> exp (amount m) = 0 -> 0 <= k ->
     amount r = amount m).
Proof.
  intros Hr.
  destruct (Money_round_Some_inv _ _ _ _ Hr) as (q & _ & Hres & Hnz & Hz).
  destruct (RoundFacts.rescale_rounded (amount m) (- k)) as (Hexp & Hpad & _).
  rewrite <- Hres in Hexp, Hpad. split.
  - intros Hadp. rewrite (Hnz Hadp). split; [exact Hexp|].
    intros Hle. unfold Dec.eqb. rewrite Hexp, (Hpad Hle).
    rewrite Z.min_l by lia. rewrite Z.sub_diag, Z.pow_0_r.
    apply Z.eqb_eq. lia.
  - intros Hadp Hx Hk. rewrite (Hz Hadp).
    assert (Hc : coef q = coef (amount m) * 10 ^ k).
    { rewrite Hpad by lia. f_equal. f_equal. lia. }
    assert (Hp : 0 < 10 ^ k) by (apply Z.pow_pos_nonneg; lia).
    destruct (amount m) as [c x]; cbn [coef exp] in *. subst x.
    unfold Dec.of_int, Dec.trunc. rewrite Hexp, Hc. f_equal.
    destruct (Z.leb_spec 0 (- k)).
    + replace k with 0 by lia. simpl. lia.
    + rewrite Z.opp_involutive.
      rewrite Z.abs_mul, (Z.abs_eq (10 ^ k)), Z.div_mul by lia.
      rewrite Z.sgn_mul, (Z.sgn_pos (10 ^ k)) by lia.
      rewrite Z.mul_1_r, Z.mul_comm. apply Z.abs_sgn.
Qed.

Lemma Money_round_pads_witness :
  let m := mkMoney (mkDecimal 25 (-1)) USD 2 2 in
  let r := mkMoney (mkDecimal 250 (-2)) USD 2 2 in
  Money_round st_default m (Some 2) = Ok r /\
  exp (amount r) = - 2 /\
  Dec.eqb (amount r) (amount m) = true.
Proof.
  intros m r. split; [reflexivity|].
  destruct (Money_round_pads st_default m 2 r eq_refl) as [Hnz _].
  destruct Hnz as [Hexp Heq]; [discriminate|].
  split; [exact Hexp|]. apply Heq. vm_compute. discriminate.
Defined.




(** ** The invariant of the constructor, and the hook *)

Section MoreArithmeticFacts.

Context {F E : Type} `{Deferred F E}.
Variable convert_money : value F -> Currency -> Res Money.

Lemma super_add_well_formed st self (other : value F) m :
  well_formed st self ->
  super_add (E:=E) st self other = Ok (RMoney m) ->
  well_formed st m.
Proof.
  intros Hwf. destruct other as [o|d|f]; cbn [super_add].
  - destruct (currency_eqb _ _); [|discriminate].
    destruct (Money_init _ _ _) as [m'|] eqn:Hm'; [|discriminate].
    cbn [res_bind]. intros [= <-]. eapply Money_init_well_formed, Hm'.
  - destruct (Dec.eqb _ _); [|discriminate]. intros [= <-]. exact Hwf.
  - discriminate.
Qed.

Lemma Money_add_well_formed st self other m t :
  well_formed st self ->
  Money_add convert_money st self other = (Ok (RMoney m), t) ->
  well_formed st m.
Proof.
  intros Hwf. unfold Money_add.
  assert (Hgen : forall t,
    bind (maybe_convert convert_money st other (currency self))
      (fun o' => lift (super_add (E:=E) st self o')) = (Ok (RMoney m), t) ->
    well_formed st m).
  { intros t'. unfold bind.
    destruct (maybe_convert _ _ _ _) as [[o'|e] t1]; [|discriminate].
    unfold lift. intros [= Hs _]. eapply super_add_well_formed; eauto. }
  destruct other; [apply Hgen | apply Hgen | discriminate].
Qed.

(** X9: every [Money] that the constructor, [round], [+] or [-] returns
    satisfies the invariant of the constructor (for the two operators,
    provided the receiver does, since they may return the receiver): its
    precision attributes are the ones configured for its currency, and
    with zero decimal places its amount is integral. *)
Theorem results_are_well_formed st :
  (forall a c m, Money_init st a c = Ok m -> well_formed st m) /\
  (forall self n r, Money_round st self n = Ok r -> well_formed st r) /\
  (forall self other m t,
     well_formed st self ->
     Money_add convert_money st self other = (Ok (RMoney m), t) \/
     Money_sub convert_money st self other = (Ok (RMoney m), t) ->
     well_formed st m).
Proof.
  split; [exact (Money_init_well_formed st)|]. split.
  - intros self n r. unfold Money_round.
    destruct n as [k|]; [destruct (Dec.quantize _ _ _); [|discriminate]|];
      apply Money_init_well_formed.
  - intros self other m t Hwf [Hadd|Hsub].
    + eapply Money_add_well_formed; eauto.
    + revert Hsub. unfold Money_sub.
      assert (Hgen : forall t,
        bind (maybe_convert convert_money st other (currency self))
          (fun o' => super_sub (E:=E) convert_money st self o')
          = (Ok (RMoney m), t) ->
        well_formed st m).
      { intros t'. unfold bind at 1.
        destruct (maybe_convert _ _ _ _) as [[o'|e] t1]; [|discriminate].
        unfold super_sub, bind, lift.
        destruct (value_neg st o') as [o''|e]; [|discriminate].
        destruct (Money_add convert_money st self o'') as [r t2] eqn:Hadd.
        intros [= -> _]. eapply Money_add_well_formed; eauto. }
      destruct other; [apply Hgen | apply Hgen | discriminate].
Qed.

(** X10: with the flag on, an error of the conversion hook ends the
    addition or subtraction with that error, after this one call of the
    hook. *)
Theorem hook_failure_propagates st a other e :
  AUTO_CONVERT_MONEY st = Some true ->
  (forall f, other <> VF f) ->
  convert_money other (currency a) = Err e ->
  Money_add convert_money st a other = (Err e, (other, currency a) :: nil) /\
  Money_sub convert_money st a other = (Err e, (other, currency a) :: nil).
Proof.
  intros Hon Hnf Herr.
  unfold Money_add, Money_sub.
  destruct other as [o|d|f]; [| |destruct (Hnf f eq_refl)];
    rewrite (maybe_convert_on _ _ _ _ Hon), Herr; split; reflexivity.
Qed.

End MoreArithmeticFacts.

Lemma hook_failure_propagates_witness :
  let zero := VNum (mkDecimal 0 0) in
  AUTO_CONVERT_MONEY st_convert = Some true /\
  sample_hook zero (currency usd10) = Err (ConversionFailure "not a Money") /\
  Money_add sample_hook st_convert usd10 zero
    = (Err (ConversionFailure "not a Money"), (zero, USD) :: nil).
Proof.
  intros zero. split; [reflexivity|]. split; [reflexivity|].
  refine (proj1 (hook_failure_propagates sample_hook st_convert usd10 zero
                   (ConversionFailure "not a Money") eq_refl _ eq_refl)).
  intros f. discriminate.
Defined.

(** ** Printing and reading decimals *)

Module PrintFacts.

Lemma app_cons a s t : (String a s ++ t)%string = String a (s ++ t)%string.
Proof. reflexivity. Qed.

Lemma app_empty_l t : ("" ++ t)%string = t.
Proof. reflexivity. Qed.

Lemma app_empty_r s : (s ++ "")%string = s.
Proof. induction s as [|a s IH]; [reflexivity|]. rewrite app_cons, IH. reflexivity. Qed.

Lemma app_assoc s t u : ((s ++ t) ++ u)%string = (s ++ t ++ u)%string.
Proof.
  induction s as [|a s IH]; [reflexivity|].
  rewrite !app_cons, IH. reflexivity.
Qed.

Lemma string_of_digits_app a b :
  string_of_digits (a ++ b) = (string_of_digits a ++ string_of_digits b)%string.
Proof.
  induction a as [|d a IH]; [reflexivity|].
  cbn [app string_of_digits]. rewrite app_cons, IH. reflexivity.
Qed.

Lemma digit_cases d :
  is_dec_digit d ->
  d = 0 \/ d = 1 \/ d = 2 \/ d = 3 \/ d = 4 \/ d = 5 \/ d = 6 \/ d = 7 \/
  d = 8 \/ d = 9.
Proof. unfold is_dec_digit. lia. Qed.

Lemma digit_char_ok d :
  is_dec_digit d ->
  is_digit (digit_char d) = true /\ digit_val (digit_char d) = d.
Proof.
  intros Hd.
  destruct (digit_cases d Hd) as [->|[->|[->|[->|[->|[->|[->|[->|[->| ->]]]]]]]]];
    split; reflexivity.
Qed.

(** *** Values of digit lists *)

Lemma fold_digits_shift ds : forall a,
  fold_left (fun acc d => 10 * acc + d) ds a
  = a * 10 ^ Z.of_nat (length ds) + fold_left (fun acc d => 10 * acc + d) ds 0.
Proof.
  induction ds as [|d ds IH]; intros a.
  - simpl. lia.
  - cbn [fold_left length]. rewrite (IH (10 * a + d)), (IH (10 * 0 + d)).
    rewrite Nat2Z.inj_succ, Z.pow_succ_r by lia. lia.
Qed.

Lemma Z_of_digits_cons d ds :
  Z_of_digits (d :: ds) = d * 10 ^ Z.of_nat (length ds) + Z_of_digits ds.
Proof.
  unfold Z_of_digits. cbn [fold_left]. rewrite fold_digits_shift. lia.
Qed.

Lemma Z_of_digits_app a b :
  Z_of_digits (a ++ b)
  = Z_of_digits a * 10 ^ Z.of_nat (length b) + Z_of_digits b.
Proof.
  unfold Z_of_digits. rewrite fold_left_app, fold_digits_shift. reflexivity.
Qed.

Lemma Z_of_digits_zeros k : Z_of_digits (repeat 0 k) = 0.
Proof.
  induction k as [|k IH]; [reflexivity|].
  cbn [repeat]. rewrite Z_of_digits_cons, IH. lia.
Qed.

Lemma Forall_zeros k : Forall is_dec_digit (repeat 0 k).
Proof.
  induction k; constructor; [unfold is_dec_digit; lia | assumption].
Qed.

(** *** The digits of a number *)

Lemma to_digits_spec fuel : forall n acc,
  0 <= n < 10 ^ Z.of_nat fuel ->
  Forall is_dec_digit acc ->
  Forall is_dec_digit (to_digits fuel n acc) /\
  Z_of_digits (to_digits fuel n acc)
  = n * 10 ^ Z.of_nat (length acc) + Z_of_digits acc.
Proof.
  induction fuel as [|f IH]; intros n acc Hn Hacc.
  - simpl in Hn. assert (n = 0) by lia. subst n. cbn [to_digits].
    split; [assumption | lia].
  - cbn [to_digits]. rewrite Nat2Z.inj_succ, Z.pow_succ_r in Hn by lia.
    destruct (Z.ltb_spec n 10) as [Hlt|Hge].
    + split; [constructor; [unfold is_dec_digit; lia | assumption]|].
      apply Z_of_digits_cons.
    + pose proof (Z.mod_pos_bound n 10 ltac:(lia)) as Hmod.
      pose proof (Z.div_mod n 10 ltac:(lia)) as Hdm.
      destruct (IH (n / 10) (n mod 10 :: acc)) as [Hall Hval].
      * split; [apply Z.div_pos; lia | apply Z.div_lt_upper_bound; lia].
      * constructor; [exact Hmod | assumption].
      * split; [exact Hall|]. rewrite Hval, Z_of_digits_cons.
        cbn [length]. rewrite Nat2Z.inj_succ, Z.pow_succ_r by lia. nia.
Qed.

Lemma to_digits_nonempty fuel n acc : to_digits (S fuel) n acc <> nil.
Proof.
  revert n acc. induction fuel as [|f IH]; intros n acc; cbn [to_digits].
  - destruct (n <? 10); discriminate.
  - destruct (n <? 10); [discriminate|]. apply (IH (n / 10)).
Qed.

Lemma digits_of_spec n :
  0 <= n ->
  Forall is_dec_digit (digits_of n) /\
  Z_of_digits (digits_of n) = n /\
  digits_of n <> nil.
Proof.
  intros Hn. unfold digits_of.
  destruct (to_digits_spec (S (Z.to_nat (Z.log2 n))) n nil) as [Hall Hval].
  - split; [assumption|].
    rewrite Nat2Z.inj_succ, Z2Nat.id by apply Z.log2_nonneg.
    destruct (Z.eq_dec n 0) as [->|Hnz]; [simpl; lia|].
    destruct (Z.log2_spec n ltac:(lia)) as [_ Hlt].
    eapply Z.lt_le_trans; [exact Hlt|].
    apply Z.pow_le_mono_l. lia.
  - constructor.
  - split; [exact Hall|]. split; [|apply to_digits_nonempty].
    rewrite Hval. unfold Z_of_digits. cbn [length fold_left].
    change (Z.of_nat 0) with 0. rewrite Z.pow_0_r. lia.
Qed.

(** *** Reading back what was printed *)

Lemma span_digits_app ds rest :
  Forall is_dec_digit ds -> not_digit_start rest ->
  span_digits (string_of_digits ds ++ rest) = (ds, rest).
Proof.
  intros Hds Hrest. induction Hds as [|d ds Hd Hds IH].
  - rewrite app_empty_l. destruct rest as [|a r]; [reflexivity|].
    cbn [span_digits]. simpl in Hrest. rewrite Hrest. reflexivity.
  - cbn [string_of_digits]. rewrite app_cons. cbn [span_digits].
    destruct (digit_char_ok d Hd) as [-> ->]. rewrite IH. reflexivity.
Qed.

Lemma span_digits_all ds :
  Forall is_dec_digit ds -> span_digits (string_of_digits ds) = (ds, "").
Proof.
  intros Hds. rewrite <- (app_empty_r (string_of_digits ds)).
  apply span_digits_app; [assumption | exact I].
Qed.

Lemma parse_sign_digit a r :
  is_digit a = true -> parse_sign (String a r) = (1, String a r).
Proof.
  destruct a as [[] [] [] [] [] [] [] []]; intros Hd;
    try discriminate Hd; reflexivity.
Qed.

Lemma parse_sign_signed c d ds rest :
  is_dec_digit d ->
  parse_sign ((if c <? 0 then "-" else "")
              ++ string_of_digits (d :: ds) ++ rest)
  = (if c <? 0 then -1 else 1, (string_of_digits (d :: ds) ++ rest)%string).
Proof.
  intros Hd. destruct (c <? 0).
  - reflexivity.
  - rewrite app_empty_l. cbn [string_of_digits]. rewrite app_cons.
    apply parse_sign_digit, digit_char_ok, Hd.
Qed.

Lemma parse_exponent_E z :
  parse_exponent ("E" ++ format_signed z) = Some z.
Proof.
  unfold format_signed.
  destruct (digits_of_spec (Z.abs z) (Z.abs_nonneg z)) as (Hall & Hval & Hne).
  destruct (digits_of (Z.abs z)) as [|d ds] eqn:Hds; [contradiction|].
  assert (Hsg : parse_sign ((if z <? 0 then "-" else "+")
                            ++ string_of_digits (d :: ds))
                = (if z <? 0 then -1 else 1, string_of_digits (d :: ds)))
    by (destruct (z <? 0); reflexivity).
  rewrite app_cons, app_empty_l. cbn [parse_exponent].
  change (Ascii.eqb "E" "e" || Ascii.eqb "E" "E")%bool with true. cbv iota.
  rewrite Hsg, (span_digits_all _ Hall), Hval.
  f_equal. destruct (Z.ltb_spec z 0); lia.
Qed.

(** The exponent part that [Decimal_str] prints. *)
Lemma exponent_part_ok l p :
  let es := if l =? p then "" else ("E" ++ format_signed (l - p))%string in
  not_digit_start es /\ (forall r, es <> String "." r) /\
  parse_exponent es = Some (l - p).
Proof.
  destruct (Z.eqb_spec l p) as [->|Hne]; cbv zeta.
  - split; [exact I|]. split; [discriminate|]. rewrite Z.sub_diag. reflexivity.
  - split; [reflexivity|]. split; [discriminate|]. apply parse_exponent_E.
Qed.

Lemma parse_with_fraction sg s ip fp es ez :
  parse_sign s
    = (sg, (string_of_digits ip ++ "." ++ string_of_digits fp ++ es)%string) ->
  Forall is_dec_digit ip -> Forall is_dec_digit fp -> ip <> nil ->
  not_digit_start es ->
  parse_exponent es = Some ez ->
  Decimal_of_string s
  = Some (mkDecimal (sg * Z_of_digits (ip ++ fp)) (ez - Z.of_nat (length fp))).
Proof.
  intros Hsg Hip Hfp Hne Hes Hez. unfold Decimal_of_string.
  rewrite Hsg, (span_digits_app ip _ Hip) by reflexivity.
  rewrite app_cons, app_empty_l, (span_digits_app fp _ Hfp Hes).
  destruct ip as [|d ip']; [contradiction|]. cbn [app]. rewrite Hez.
  reflexivity.
Qed.

Lemma parse_without_fraction sg s ip es ez :
  parse_sign s = (sg, (string_of_digits ip ++ es)%string) ->
  Forall is_dec_digit ip -> ip <> nil ->
  not_digit_start es -> (forall r, es <> String "." r) ->
  parse_exponent es = Some ez ->
  Decimal_of_string s = Some (mkDecimal (sg * Z_of_digits ip) ez).
Proof.
  intros Hsg Hip Hne Hes Hdot Hez. unfold Decimal_of_string.
  rewrite Hsg, (span_digits_app ip _ Hip Hes).
  assert (Hnodot : match es with
                   | String "." r => span_digits r
                   | _ => (nil, es)
                   end = (nil, es)).
  { destruct es as [|a r]; [reflexivity|].
    destruct (Ascii.eqb_spec a ".") as [->|Ha]; [destruct (Hdot r eq_refl)|].
    destruct a as [[] [] [] [] [] [] [] []]; try reflexivity.
    destruct Ha; reflexivity. }
  rewrite Hnodot, app_nil_r.
  destruct ip as [|d ip']; [contradiction|]. rewrite Hez.
  cbn [length]. rewrite Z.sub_0_r. reflexivity.
Qed.

Lemma starts_with_digit_digits ds rest :
  Forall is_dec_digit ds -> ds <> nil ->
  starts_with_digit (string_of_digits ds ++ rest).
Proof.
  intros Hds Hne. destruct Hds as [|d ds Hd _]; [contradiction|].
  cbn [string_of_digits]. rewrite app_cons. apply digit_char_ok, Hd.
Qed.

Lemma parse_sign_body c body :
  starts_with_digit body ->
  parse_sign ((if c <? 0 then "-" else "") ++ body)
  = (if c <? 0 then -1 else 1, body).
Proof.
  intros Hb. destruct (c <? 0); [reflexivity|].
  rewrite app_empty_l. destruct body as [|a r]; [destruct Hb|].
  apply parse_sign_digit, Hb.
Qed.

Lemma sign_abs c : (if c <? 0 then -1 else 1) * Z.abs c = c.
Proof. destruct (Z.ltb_spec c 0); lia. Qed.

(** Reading the text of a decimal gives the decimal back, digit for digit. *)
Lemma Decimal_str_round_trip d :
  Decimal_of_string (Decimal_str d) = Some d.
Proof.
  unfold Decimal_str. cbv zeta.
  destruct (digits_of_spec (Z.abs (coef d)) (Z.abs_nonneg _)) as (Hall & Hval & Hne).
  set (ds := digits_of (Z.abs (coef d))) in *.
  set (len := Z.of_nat (length ds)).
  assert (Hlen : 1 <= len).
  { unfold len. destruct ds; [contradiction|]. cbn [length]. lia. }
  set (l := exp d + len).
  set (p := if (exp d <=? 0) && (-6 <? l) then l else 1).
  assert (Hp : p = 1 \/ (p = l /\ exp d <= 0)).
  { unfold p. destruct (Z.leb_spec (exp d) 0); cbn [andb]; [|auto].
    destruct (-6 <? l); auto. }
  destruct (exponent_part_ok l p) as (Hes & Hdot & Hez).
  set (es := if l =? p then "" else "E" ++ format_signed (l - p)) in *.
  destruct (Z.leb_spec p 0) as [Hp0|Hp0].
  - (* 0.000ddd *)
    assert (Hbody :
      ("0" ++ ("." ++ string_of_digits (repeat 0 (Z.to_nat (- p)))
                   ++ string_of_digits ds) ++ es)%string
      = (string_of_digits (0 :: nil) ++ "."
         ++ string_of_digits (repeat 0 (Z.to_nat (- p)) ++ ds) ++ es)%string).
    { rewrite string_of_digits_app, !app_assoc. reflexivity. }
    rewrite Hbody.
    rewrite (parse_with_fraction (if coef d <? 0 then -1 else 1) _ (0 :: nil)
               (repeat 0 (Z.to_nat (- p)) ++ ds) es (l - p)); try assumption.
    + change ((0 :: nil) ++ ?x)%list with (0 :: x).
      rewrite Z_of_digits_cons, Z_of_digits_app, Z_of_digits_zeros, Hval.
      rewrite length_app, repeat_length, Nat2Z.inj_add, Z2Nat.id by lia.
      fold len. rewrite sign_abs.
      destruct d as [c x]; cbn [coef exp] in *. f_equal. f_equal; lia.
    + apply parse_sign_body. reflexivity.
    + constructor; [unfold is_dec_digit; lia | constructor].
    + apply Forall_app; split; [apply Forall_zeros | assumption].
    + discriminate.
  - destruct (Z.leb_spec len p) as [Hlp|Hlp].
    + (* ddd000 *)
      rewrite app_empty_l, <- string_of_digits_app.
      rewrite (parse_without_fraction (if coef d <? 0 then -1 else 1) _
                 (ds ++ repeat 0 (Z.to_nat (p - len))) es (l - p));
        try assumption.
      * rewrite Z_of_digits_app, Z_of_digits_zeros, Hval, repeat_length.
        rewrite Z2Nat.id by lia.
        assert (p = len) as Hpl by lia.
        replace (p - len) with 0 by lia. rewrite Z.pow_0_r, Z.mul_1_r, Z.add_0_r.
        rewrite sign_abs. destruct d as [c x]; cbn [coef exp] in *.
        f_equal. f_equal. unfold l in *. lia.
      * apply parse_sign_body, starts_with_digit_digits.
        -- apply Forall_app; split; [assumption | apply Forall_zeros].
        -- destruct ds; [contradiction | discriminate].
      * apply Forall_app; split; [assumption | apply Forall_zeros].
      * destruct ds; [contradiction | discriminate].
    + (* d.dd *)
      rewrite !app_assoc.
      rewrite (parse_with_fraction (if coef d <? 0 then -1 else 1) _
                 (firstn (Z.to_nat p) ds) (skipn (Z.to_nat p) ds) es (l - p));
        try assumption.
      * rewrite firstn_skipn, Hval, sign_abs, length_skipn.
        destruct d as [c x]; cbn [coef exp] in *. f_equal. f_equal.
        unfold l, len in *. lia.
      * apply parse_sign_body, starts_with_digit_digits.
        -- apply Forall_take; assumption.
        -- destruct ds; [contradiction|].
           replace (Z.to_nat p) with (S (Z.to_nat (p - 1))) by lia. discriminate.
      * apply Forall_take; assumption.
      * apply Forall_drop; assumption.
      * destruct ds; [contradiction|].
        replace (Z.to_nat p) with (S (Z.to_nat (p - 1))) by lia. discriminate.
Qed.

End PrintFacts.

(** ** Texts of amounts *)

Lemma to_decimal_Decimal_str d : to_decimal (AStr (Decimal_str d)) = Ok d.
Proof.
  cbn [to_decimal]. rewrite PrintFacts.Decimal_str_round_trip. reflexivity.
Qed.

(** The text of an integral decimal without exponent: a sign and the
    digits. *)
Lemma Decimal_str_of_int t :
  Decimal_str (Dec.of_int t)
  = (if t <? 0 then "-" else "") ++ string_of_digits (digits_of (Z.abs t)).
Proof.
  unfold Decimal_str, Dec.of_int; cbn [coef exp]. cbv zeta.
  destruct (PrintFacts.digits_of_spec (Z.abs t) (Z.abs_nonneg t)) as (_ & _ & Hne).
  set (ds := digits_of (Z.abs t)) in *.
  set (len := Z.of_nat (length ds)).
  assert (Hlen : 1 <= len).
  { unfold len. destruct ds; [contradiction|]. cbn [length]. lia. }
  rewrite Z.add_0_l.
  change (0 <=? 0) with true. cbn [andb].
  destruct (Z.ltb_spec (-6) len); [|lia].
  destruct (Z.leb_spec len 0); [lia|].
  rewrite Z.leb_refl, Z.eqb_refl, Z.sub_diag.
  change (Z.to_nat 0) with O. cbn [repeat string_of_digits].
  rewrite !PrintFacts.app_empty_r. reflexivity.
Qed.

(** X11: constructing from the text of a [Decimal] is constructing from
    that [Decimal]: the text is read back exactly, exponent included. *)
Theorem Money_init_of_Decimal_text st d c :
  Money_init st (AStr (Decimal_str d)) c = Money_init st (ADecimal d) c.
Proof.
  unfold Money_init. rewrite to_decimal_Decimal_str. reflexivity.
Qed.

(** X12: the two texts in the [repr] of a [Money], given back to the
    constructor, build the [Money] with the shown amount; this is the
    [Money] itself if it has display places (or an integral amount) and
    its currency is registered under its code. *)
Theorem Money_repr_round_trip st m :
  well_formed st m ->
  CURRENCIES st !! upper (code (currency m)) = Some (currency m) ->
  Money_repr m
    = ("Money('" ++ Decimal_str (repr_amount m) ++ "', '"
       ++ code (currency m) ++ "')")%string /\
  Money_init st (AStr (Decimal_str (repr_amount m)))
      (CCode (code (currency m)))
    = Money_init st (ADecimal (repr_amount m)) (CCurrency (currency m)) /\
  (display_decimal_places m <> 0 \/ exp (amount m) = 0 ->
   Money_init st (AStr (Decimal_str (repr_amount m)))
       (CCode (code (currency m))) = Ok m).
Proof.
  intros [Hpl Hint] Hreg. split; [reflexivity|].
  assert (Hparse :
    Money_init st (AStr (Decimal_str (repr_amount m)))
      (CCode (code (currency m)))
    = Money_init st (ADecimal (repr_amount m)) (CCurrency (currency m))).
  { unfold Money_init. rewrite to_decimal_Decimal_str.
    cbn [to_decimal to_currency res_bind]. unfold get_currency.
    rewrite Hreg. reflexivity. }
  split; [exact Hparse|]. intros Hshown. rewrite Hparse.
  assert (Hexact : forall d, exp d = 0 -> Dec.of_int (Dec.trunc d) = d).
  { intros [c x] Hx; cbn [exp] in Hx; subst x.
    unfold Dec.of_int, Dec.trunc; cbn [coef exp].
    change (0 <=? 0) with true. cbv iota. rewrite Z.pow_0_r, Z.mul_1_r.
    reflexivity. }
  assert (Hamt : repr_amount m = amount m).
  { unfold repr_amount.
    destruct (Z.eqb_spec (display_decimal_places m) 0) as [Hz|Hz];
      [|reflexivity].
    destruct Hshown as [Hnz|Hx]; [contradiction|]. apply Hexact, Hx. }
  rewrite Hamt, Money_init_values, <- Hpl. cbn [fst snd].
  destruct m as [amt cur adp ddp]; cbn in *.
  destruct (Z.eqb_spec adp 0) as [Hz|Hz]; [|reflexivity].
  rewrite (Hexact amt (Hint Hz)). reflexivity.
Qed.

Lemma Money_repr_round_trip_witness :
  let m := mkMoney (mkDecimal 1999 (-2)) USD 2 2 in
  well_formed st_default m /\
  CURRENCIES st_default !! upper (code (currency m)) = Some (currency m) /\
  Money_repr m = "Money('19.99', 'USD')" /\
  Money_init st_default (AStr "19.99") (CCode "USD") = Ok m.
Proof.
  intros m.
  assert (Hwf : well_formed st_default m) by (split; [reflexivity | discriminate]).
  assert (Hreg : CURRENCIES st_default !! upper (code (currency m))
                 = Some (currency m)) by reflexivity.
  split; [exact Hwf|]. split; [exact Hreg|]. split; [reflexivity|].
  destruct (Money_repr_round_trip st_default m Hwf Hreg) as (_ & _ & Hback).
  apply Hback. left. discriminate.
Defined.

(** X13: for an instance with zero display places, [repr] shows the
    integer part of the amount, as a sign and digits, with neither point
    nor exponent. *)
Theorem Money_repr_zero_display m :
  display_decimal_places m = 0 ->
  Money_repr m
  = "Money('"
    ++ ((if Dec.trunc (amount m) <? 0 then "-" else "")
        ++ string_of_digits (digits_of (Z.abs (Dec.trunc (amount m)))))
    ++ "', '" ++ code (currency m) ++ "')".
Proof.
  intros Hz. unfold Money_repr, repr_amount. rewrite Hz.
  change (0 =? 0) with true. cbv iota.
  rewrite Decimal_str_of_int. reflexivity.
Qed.

Lemma Money_repr_zero_display_witness :
  let m := mkMoney (mkDecimal (-1999) (-2)) JPY 2 0 in
  display_decimal_places m = 0 /\ Money_repr m = "Money('-19', 'JPY')".
Proof.
  intros m. split; [reflexivity|].
  exact (Money_repr_zero_display m eq_refl).
Defined.

(** ** Markup *)

Lemma chars_app s t :
  list_ascii_of_string (s ++ t)
  = (list_ascii_of_string s ++ list_ascii_of_string t)%list.
Proof.
  induction s as [|a s IH]; [reflexivity|].
  rewrite PrintFacts.app_cons. cbn [list_ascii_of_string app].
  rewrite IH. reflexivity.
Qed.

Lemma escape_char_no_markup a :
  Forall (fun b => b <> "<"%char /\ b <> ">"%char /\ b <> "034"%char
                   /\ b <> "'"%char)
    (list_ascii_of_string (escape_char a)).
Proof.
  unfold escape_char.
  destruct (Ascii.eqb_spec a "&");
    [repeat constructor; discriminate|].
  destruct (Ascii.eqb_spec a "<");
    [repeat constructor; discriminate|].
  destruct (Ascii.eqb_spec a ">");
    [repeat constructor; discriminate|].
  destruct (Ascii.eqb_spec a "034");
    [repeat constructor; discriminate|].
  destruct (Ascii.eqb_spec a "'");
    [repeat constructor; discriminate|].
  repeat constructor; assumption.
Qed.

Lemma escape_no_markup s :
  Forall (fun b => b <> "<"%char /\ b <> ">"%char /\ b <> "034"%char
                   /\ b <> "'"%char)
    (list_ascii_of_string (escape s)).
Proof.
  induction s as [|a s IH]; [constructor|].
  cbn [escape]. rewrite chars_app. apply Forall_app. split;
    [apply escape_char_no_markup | exact IH].
Qed.

Lemma avoid_wrapping_inert s :
  Forall (fun b => b <> "<"%char /\ b <> ">"%char /\ b <> "034"%char
                   /\ b <> "'"%char)
    (list_ascii_of_string s) ->
  Forall markup_inert (list_ascii_of_string (avoid_wrapping s)).
Proof.
  induction s as [|a s IH]; intros Hs; [constructor|].
  cbn [list_ascii_of_string] in Hs. inversion Hs as [|? ? Ha Hs']; subst.
  cbn [avoid_wrapping].
  destruct (Ascii.eqb_spec a " ") as [->|Hsp]; cbn [list_ascii_of_string].
  - constructor; [unfold markup_inert; repeat split; discriminate|].
    constructor; [unfold markup_inert; repeat split; discriminate|].
    apply IH, Hs'.
  - constructor; [|apply IH, Hs'].
    destruct Ha as (? & ? & ? & ?). repeat split; assumption.
Qed.

(** X14: whatever text [format_money] returns, the markup rendering
    contains no [<], [>], double or single quote and no ordinary space. *)
Theorem Money_html_inert format_money to_locale st USE_L10N use_l10n m :
  match Money_html format_money to_locale st USE_L10N use_l10n m with
  | mark_safe s => Forall markup_inert (list_ascii_of_string s)
  end.
Proof.
  unfold Money_html. apply avoid_wrapping_inert, escape_no_markup.
Qed.

Example Money_html_example :
  Money_html (fun kw => "<b>1 000.00 US$</b>") to_locale_django st_default
    false None usd10
  = mark_safe
      (String "&" "lt;b&gt;1"
       ++ String "194" (String "160" "000.00")
       ++ String "194" (String "160" "US$&lt;/b&gt;")).
Proof. reflexivity. Qed.
